(** * filtered_logger: redaction of personal data in log lines

    A shallow embedding of [0x00-personal_data/filtered_logger.py] and the
    properties of its redactor, formatter, logger factory, database
    connector and row-reporting loop.

    Python strings are lists of characters; the characters are the code
    points below 256.  The module builds its regular expressions from
    unescaped strings, so the embedding contains a model of the part of
    Python's [re] that such patterns reach: the pattern parser, the
    backtracking matcher, the replacement template and [re.sub]. *)

From Stdlib Require Import Ascii String List Bool Arith Lia.
From stdpp Require Import base option list gmap strings.

Import ListNotations.
Local Open Scope list_scope.


(** ** Strings and outcomes *)

Abbreviation str := (list ascii).

(** A Python string literal. *)
Definition py (s : string) : str := list_ascii_of_string s.

(** What a call can do besides returning: raise one of the exceptions the
    module can meet, or leave the modelled fragment of [re]. *)
Inductive exn : Type :=
| re_error          (* re.error, from the pattern or the template compiler *)
| IndexError        (* a row with fewer columns than the loop reads *)
| DriverError.      (* whatever the database driver raises *)

Inductive outcome (A : Type) : Type :=
| Ret (a : A)
| Raise (e : exn)
| Unmodelled.

Arguments Ret {A} a.
Arguments Raise {A} e.
Arguments Unmodelled {A}.

Definition bind {A B : Type} (m : outcome A) (f : A -> outcome B) : outcome B :=
  match m with
  | Ret a => f a
  | Raise e => Raise e
  | Unmodelled => Unmodelled
  end.

Notation "'let!' x ':=' m 'in' k" := (bind m (fun x => k))
  (at level 10, x name, m at level 100, k at level 200).

(** ** Characters *)

Definition chr_eqb (a b : ascii) : bool := Ascii.eqb a b.
Arguments chr_eqb a%_char b%_char.

Fixpoint ch_in (c : ascii) (s : string) : bool :=
  match s with
  | EmptyString => false
  | String x s' => chr_eqb c x || ch_in c s'
  end.

Definition ord (c : ascii) : nat := nat_of_ascii c.

(* DIGITS, OCTDIGITS and ASCIILETTERS of re._parser *)
Definition is_digit (c : ascii) : bool := (48 <=? ord c) && (ord c <=? 57).
Definition is_octdigit (c : ascii) : bool := (48 <=? ord c) && (ord c <=? 55).
Definition is_ascii_letter (c : ascii) : bool :=
  ((65 <=? ord c) && (ord c <=? 90)) || ((97 <=? ord c) && (ord c <=? 122)).

Definition digit_val (c : ascii) : nat := ord c - 48.

Definition newline : ascii := "010"%char.
Definition backslash : ascii := "092"%char.

(* SPECIAL_CHARS of re._parser: . \ [ { ( ) * + ? ^ $ | *)
Definition is_special (c : ascii) : bool :=
  chr_eqb c backslash || ch_in c ".[{()*+?^$|".

(** ** Regular expressions: the parsed pattern *)

(** One-character matchers. *)
Inductive atom : Type :=
| ALit (c : ascii)           (* LITERAL *)
| AAny                       (* ANY: every character but the newline *)
| ADigit (negated : bool).   (* \d and \D *)

Inductive anchor : Type :=
| AtBeginning                (* ^ *)
| AtEnd                      (* $ *)
| AtBeginningString          (* \A *)
| AtEndString.               (* \Z *)

Inductive quant : Type := QStar | QPlus | QOpt.

Inductive regex : Type :=
| Eps
| Chr (a : atom)
| At (a : anchor)
| Rep (q : quant) (lazy : bool) (a : atom)
| Group (n : nat) (r : regex)
| Backref (n : nat)
| Seq (r1 r2 : regex)
| Alt (r1 r2 : regex).

Definition atom_ok (a : atom) (c : ascii) : bool :=
  match a with
  | ALit x => chr_eqb c x
  | AAny => negb (chr_eqb c newline)
  | ADigit neg => xorb neg (is_digit c)
  end.

(** ** The pattern parser (re._parser.parse)

    One frame per open group; the bottom frame is the whole pattern. *)
Record frame : Type := Frame {
  fr_group : nat;              (* number of the group the frame parses *)
  fr_alts : list regex;        (* alternatives already closed by | , last first *)
  fr_items : list regex        (* items of the current alternative, last first *)
}.

Definition seq_of (items : list regex) : regex :=
  fold_left (fun acc it => Seq it acc) items Eps.

Definition close_frame (fr : frame) : regex :=
  fold_left (fun acc a => Alt a acc) (fr_alts fr) (seq_of (fr_items fr)).

Definition push_item (it : regex) (fr : frame) : frame :=
  Frame (fr_group fr) (fr_alts fr) (it :: fr_items fr).

Definition next_alt (fr : frame) : frame :=
  Frame (fr_group fr) (seq_of (fr_items fr) :: fr_alts fr) [].

(** Escapes outside a character class (re._parser._escape).  [e] is the
    character after the backslash, [rest] what follows, [ngroups] the number
    of groups opened so far and [open] the groups not yet closed.  Returns
    the item and the number of characters of [rest] the escape takes. *)
Definition parse_escape (e : ascii) (rest : str) (ngroups : nat) (open : list nat)
  : outcome (regex * nat) :=
  if is_ascii_letter e then
    if chr_eqb e "d" then Ret (Chr (ADigit false), 0)
    else if chr_eqb e "D" then Ret (Chr (ADigit true), 0)
    else if chr_eqb e "A" then Ret (At AtBeginningString, 0)
    else if chr_eqb e "Z" then Ret (At AtEndString, 0)
    else if chr_eqb e "a" then Ret (Chr (ALit "007"%char), 0)
    else if chr_eqb e "f" then Ret (Chr (ALit "012"%char), 0)
    else if chr_eqb e "n" then Ret (Chr (ALit "010"%char), 0)
    else if chr_eqb e "r" then Ret (Chr (ALit "013"%char), 0)
    else if chr_eqb e "t" then Ret (Chr (ALit "009"%char), 0)
    else if chr_eqb e "v" then Ret (Chr (ALit "011"%char), 0)
    else if ch_in e "bBsSwWxuUNz" then Unmodelled
    else Raise re_error                               (* bad escape *)
  else if chr_eqb e "0" then
    (* octal escape: up to two more octal digits *)
    match rest with
    | d1 :: rest1 =>
        if is_octdigit d1 then
          match rest1 with
          | d2 :: rest2 =>
              if is_octdigit d2
              then Ret (Chr (ALit (ascii_of_nat (8 * digit_val d1 + digit_val d2))), 2)
              else Ret (Chr (ALit (ascii_of_nat (digit_val d1))), 1)
          | [] => Ret (Chr (ALit (ascii_of_nat (digit_val d1))), 1)
          end
        else Ret (Chr (ALit "000"%char), 0)
    | [] => Ret (Chr (ALit "000"%char), 0)
    end
  else if is_digit e then
    (* octal escape or decimal group reference *)
    let groupref (g : nat) (taken : nat) : outcome (regex * nat) :=
      if g <=? ngroups then
        if existsb (Nat.eqb g) open then Raise re_error  (* open group *)
        else Ret (Backref g, taken)
      else Raise re_error                                (* invalid group reference *)
    in
    match rest with
    | d1 :: rest1 =>
        if is_digit d1 then
          match rest1 with
          | d2 :: rest2 =>
              if is_octdigit e && is_octdigit d1 && is_octdigit d2 then
                let v := 64 * digit_val e + 8 * digit_val d1 + digit_val d2 in
                if 255 <? v then Raise re_error
                else Ret (Chr (ALit (ascii_of_nat v)), 2)
              else groupref (10 * digit_val e + digit_val d1) 1
          | [] => groupref (10 * digit_val e + digit_val d1) 1
          end
        else groupref (digit_val e) 0
    | [] => groupref (digit_val e) 0
    end
  else Ret (Chr (ALit e), 0).

(** The item a repeat character applies to (the last one of the current
    alternative), as _parse decides it. *)
Definition repeat_item (q : quant) (lazy : bool) (items : list regex)
  : outcome (list regex) :=
  match items with
  | [] => Raise re_error                 (* nothing to repeat *)
  | At _ :: _ => Raise re_error          (* nothing to repeat *)
  | Rep _ _ _ :: _ => Raise re_error     (* multiple repeat *)
  | Chr a :: items' => Ret (Rep q lazy a :: items')
  | _ => Unmodelled                      (* a repeated group or reference *)
  end.

(** The classes of pattern characters _parse tells apart. *)
Inductive pchar : Type :=
| PBar | PClose | POpen | PEscape | PRepeat (q : quant)
| PDot | PCaret | PDollar | PBracket | PBrace | PLiteral.

Definition classify (c : ascii) : pchar :=
  if chr_eqb c "|" then PBar
  else if chr_eqb c ")" then PClose
  else if chr_eqb c "(" then POpen
  else if chr_eqb c backslash then PEscape
  else if chr_eqb c "*" then PRepeat QStar
  else if chr_eqb c "+" then PRepeat QPlus
  else if chr_eqb c "?" then PRepeat QOpt
  else if chr_eqb c "." then PDot
  else if chr_eqb c "^" then PCaret
  else if chr_eqb c "$" then PDollar
  else if chr_eqb c "[" then PBracket
  else if chr_eqb c "{" then PBrace
  else PLiteral.

Definition set_items (fr : frame) (items : list regex) : frame :=
  Frame (fr_group fr) (fr_alts fr) items.

(** [parse_go src top stack ngroups]: [top] is the frame being filled,
    [stack] the frames of the enclosing groups. *)
Fixpoint parse_go (src : str) (top : frame) (stack : list frame) (ngroups : nat)
  {struct src} : outcome regex :=
  match src with
  | [] =>
      match stack with
      | [] => Ret (close_frame top)
      | _ :: _ => Raise re_error         (* missing ), unterminated subpattern *)
      end
  | c :: rest =>
      match classify c with
      | PBar => parse_go rest (next_alt top) stack ngroups
      | PClose =>
          match stack with
          | [] => Raise re_error         (* unbalanced parenthesis *)
          | parent :: stack' =>
              parse_go rest
                (push_item (Group (fr_group top) (close_frame top)) parent)
                stack' ngroups
          end
      | POpen =>
          match rest with
          | c' :: _ =>
              if chr_eqb c' "?" then Unmodelled   (* extension notation *)
              else parse_go rest (Frame (S ngroups) [] []) (top :: stack) (S ngroups)
          | [] => parse_go rest (Frame (S ngroups) [] []) (top :: stack) (S ngroups)
          end
      | PEscape =>
          match rest with
          | [] => Raise re_error         (* bad escape (end of pattern) *)
          | e :: rest1 =>
              match parse_escape e rest1 ngroups
                      (fr_group top :: map fr_group stack) with
              | Ret (it, taken) =>
                  match taken, rest1 with
                  | 0, _ => parse_go rest1 (push_item it top) stack ngroups
                  | 1, _ :: r2 => parse_go r2 (push_item it top) stack ngroups
                  | _, _ :: _ :: r3 => parse_go r3 (push_item it top) stack ngroups
                  | _, _ => Unmodelled   (* not reached: the escape read them *)
                  end
              | Raise x => Raise x
              | Unmodelled => Unmodelled
              end
          end
      | PRepeat q =>
          match rest with
          | c' :: rest1 =>
              if chr_eqb c' "?" then
                let! items := repeat_item q true (fr_items top) in
                parse_go rest1 (set_items top items) stack ngroups
              else if chr_eqb c' "+" then
                let! items := repeat_item q false (fr_items top) in
                Unmodelled                (* possessive repeat *)
              else
                let! items := repeat_item q false (fr_items top) in
                parse_go rest (set_items top items) stack ngroups
          | [] =>
              let! items := repeat_item q false (fr_items top) in
              parse_go rest (set_items top items) stack ngroups
          end
      | PDot => parse_go rest (push_item (Chr AAny) top) stack ngroups
      | PCaret => parse_go rest (push_item (At AtBeginning) top) stack ngroups
      | PDollar => parse_go rest (push_item (At AtEnd) top) stack ngroups
      | PBracket => Unmodelled           (* character sets *)
      | PBrace => Unmodelled             (* counted repeats *)
      | PLiteral => parse_go rest (push_item (Chr (ALit c)) top) stack ngroups
      end
  end.

Definition re_compile (pattern : str) : outcome regex :=
  parse_go pattern (Frame 0 [] []) [] 0.

(** Number of capturing groups of a compiled pattern (Pattern.groups). *)
Fixpoint ngroups_of (r : regex) : nat :=
  match r with
  | Group _ r' => S (ngroups_of r')
  | Seq r1 r2 | Alt r1 r2 => ngroups_of r1 + ngroups_of r2
  | _ => 0
  end.

(** ** The matcher

    A backtracking matcher in continuation-passing style: [k] is what has to
    match after the expression; the first success in the order Python tries
    the alternatives is the result.  [pos] is the position in the searched
    string, [cs] the groups captured so far, last first. *)
Definition caps : Type := list (nat * str).

Fixpoint cap_lookup (n : nat) (cs : caps) : option str :=
  match cs with
  | [] => None
  | (i, t) :: cs' => if Nat.eqb i n then Some t else cap_lookup n cs'
  end.

Definition kont : Type := str -> nat -> caps -> option (nat * caps).

Definition one (a : atom) (s : str) (pos : nat) (cs : caps) (k : kont)
  : option (nat * caps) :=
  match s with
  | c :: s' => if atom_ok a c then k s' (S pos) cs else None
  | [] => None
  end.

Definition or_else {A : Type} (x y : option A) : option A :=
  match x with
  | Some r => Some r
  | None => y
  end.

Fixpoint star_lazy (a : atom) (s : str) (pos : nat) (cs : caps) (k : kont)
  : option (nat * caps) :=
  or_else (k s pos cs)
    match s with
    | c :: s' => if atom_ok a c then star_lazy a s' (S pos) cs k else None
    | [] => None
    end.

Fixpoint star_greedy (a : atom) (s : str) (pos : nat) (cs : caps) (k : kont)
  : option (nat * caps) :=
  match s with
  | c :: s' =>
      if atom_ok a c
      then or_else (star_greedy a s' (S pos) cs k) (k s pos cs)
      else k s pos cs
  | [] => k s pos cs
  end.

Definition star (lazy : bool) : atom -> str -> nat -> caps -> kont -> option (nat * caps) :=
  if lazy then star_lazy else star_greedy.

Definition rep (q : quant) (lazy : bool) (a : atom) (s : str) (pos : nat)
  (cs : caps) (k : kont) : option (nat * caps) :=
  match q with
  | QStar => star lazy a s pos cs k
  | QPlus => one a s pos cs (fun s' pos' cs' => star lazy a s' pos' cs' k)
  | QOpt =>
      if lazy then or_else (k s pos cs) (one a s pos cs k)
      else or_else (one a s pos cs k) (k s pos cs)
  end.

Definition at_anchor (a : anchor) (s : str) (pos : nat) : bool :=
  match a with
  | AtBeginning | AtBeginningString => Nat.eqb pos 0
  | AtEndString => match s with [] => true | _ => false end
  | AtEnd =>
      match s with
      | [] => true
      | [c] => chr_eqb c newline
      | _ => false
      end
  end.

Fixpoint is_prefix (t s : str) : bool :=
  match t, s with
  | [], _ => true
  | x :: t', y :: s' => chr_eqb x y && is_prefix t' s'
  | _ :: _, [] => false
  end.

Fixpoint re_match (r : regex) (s : str) (pos : nat) (cs : caps) (k : kont)
  {struct r} : option (nat * caps) :=
  match r with
  | Eps => k s pos cs
  | Chr a => one a s pos cs k
  | At a => if at_anchor a s pos then k s pos cs else None
  | Rep q lazy a => rep q lazy a s pos cs k
  | Group n r' =>
      re_match r' s pos cs
        (fun s' pos' cs' => k s' pos' ((n, take (pos' - pos) s) :: cs'))
  | Backref n =>
      match cap_lookup n cs with
      | Some t =>
          if is_prefix t s then k (drop (length t) s) (pos + length t) cs
          else None
      | None => None
      end
  | Seq r1 r2 =>
      re_match r1 s pos cs (fun s' pos' cs' => re_match r2 s' pos' cs' k)
  | Alt r1 r2 => or_else (re_match r1 s pos cs k) (re_match r2 s pos cs k)
  end.

(** A match of [r] starting at [pos], where [s] is the string from [pos] on:
    its length and its groups.  With [must_advance] an empty match is not
    accepted (the flag _sre sets after an empty match). *)
Definition match_at (r : regex) (s : str) (pos : nat) (must_advance : bool)
  : option (nat * caps) :=
  re_match r s pos []
    (fun _ pos' cs' =>
       if must_advance && Nat.eqb pos' pos then None else Some (pos' - pos, cs')).

(** ** The replacement template (re._parser.parse_template) *)
Inductive tpart : Type :=
| TLit (c : ascii)
| TGroup (n : nat).

Definition add_group (n ngroups : nat) (k : outcome (list tpart))
  : outcome (list tpart) :=
  if ngroups <? n then Raise re_error      (* invalid group reference *)
  else let! ps := k in Ret (TGroup n :: ps).

Definition add_lit (c : ascii) (k : outcome (list tpart)) : outcome (list tpart) :=
  let! ps := k in Ret (TLit c :: ps).

Fixpoint parse_template (src : str) (ngroups : nat) {struct src}
  : outcome (list tpart) :=
  match src with
  | [] => Ret []
  | c :: rest =>
      if negb (chr_eqb c backslash) then add_lit c (parse_template rest ngroups)
      else
        match rest with
        | [] => Raise re_error             (* bad escape (end of pattern) *)
        | e :: rest1 =>
            if chr_eqb e "g" then Unmodelled
            else if chr_eqb e "0" then
              match rest1 with
              | d1 :: rest2 =>
                  if is_octdigit d1 then
                    match rest2 with
                    | d2 :: rest3 =>
                        if is_octdigit d2
                        then add_lit (ascii_of_nat (8 * digit_val d1 + digit_val d2))
                               (parse_template rest3 ngroups)
                        else add_lit (ascii_of_nat (digit_val d1))
                               (parse_template rest2 ngroups)
                    | [] => add_lit (ascii_of_nat (digit_val d1))
                              (parse_template rest2 ngroups)
                    end
                  else add_lit "000"%char (parse_template rest1 ngroups)
              | [] => add_lit "000"%char (parse_template rest1 ngroups)
              end
            else if is_digit e then
              match rest1 with
              | d1 :: rest2 =>
                  if is_digit d1 then
                    match rest2 with
                    | d2 :: rest3 =>
                        if is_octdigit e && is_octdigit d1 && is_octdigit d2 then
                          let v := 64 * digit_val e + 8 * digit_val d1 + digit_val d2 in
                          if 255 <? v then Raise re_error
                          else add_lit (ascii_of_nat v) (parse_template rest3 ngroups)
                        else add_group (10 * digit_val e + digit_val d1) ngroups
                               (parse_template rest2 ngroups)
                    | [] => add_group (10 * digit_val e + digit_val d1) ngroups
                              (parse_template rest2 ngroups)
                    end
                  else add_group (digit_val e) ngroups (parse_template rest1 ngroups)
              | [] => add_group (digit_val e) ngroups (parse_template rest1 ngroups)
              end
            else if chr_eqb e "a" then add_lit "007"%char (parse_template rest1 ngroups)
            else if chr_eqb e "b" then add_lit "008"%char (parse_template rest1 ngroups)
            else if chr_eqb e "f" then add_lit "012"%char (parse_template rest1 ngroups)
            else if chr_eqb e "n" then add_lit "010"%char (parse_template rest1 ngroups)
            else if chr_eqb e "r" then add_lit "013"%char (parse_template rest1 ngroups)
            else if chr_eqb e "t" then add_lit "009"%char (parse_template rest1 ngroups)
            else if chr_eqb e "v" then add_lit "011"%char (parse_template rest1 ngroups)
            else if chr_eqb e backslash then add_lit backslash (parse_template rest1 ngroups)
            else if is_ascii_letter e then Raise re_error       (* bad escape *)
            else add_lit backslash (add_lit e (parse_template rest1 ngroups))
        end
  end.

(** The template [re.sub] works with: a replacement without a backslash is
    taken literally, any other goes through the template parser, before the
    search starts. *)
Definition compile_repl (repl : str) (ngroups : nat) : outcome (list tpart) :=
  if existsb (chr_eqb backslash) repl then parse_template repl ngroups
  else Ret (map TLit repl).

(** expand_template: a group that did not take part in the match is empty. *)
Definition expand (t : list tpart) (cs : caps) : str :=
  flat_map (fun p =>
              match p with
              | TLit c => [c]
              | TGroup n => default [] (cap_lookup n cs)
              end) t.

(** ** re.sub

    [sub_go r t s pos skip]: [s] is the searched string from [pos] on; the
    first [skip] characters of [s] belong to the match just replaced.  At a
    search position the leftmost match is the one at the position itself if
    there is one; an empty match is followed by a second try at the same
    position that has to advance. *)
Fixpoint sub_go (r : regex) (t : list tpart) (s : str) (pos skip : nat)
  {struct s} : str :=
  let step (n : nat) : str :=             (* leave the position *)
    match s with
    | [] => []
    | c :: s' => (if Nat.eqb n 0 then [c] else []) ++ sub_go r t s' (S pos) (n - 1)
    end in
  match skip with
  | S n => match s with
           | [] => []
           | _ :: s' => sub_go r t s' (S pos) n
           end
  | 0 =>
      match match_at r s pos false with
      | None => step 0
      | Some (S n, cs) => expand t cs ++ step (S n)
      | Some (0, cs) =>
          expand t cs ++
          match match_at r s pos true with
          | Some (n, cs') => expand t cs' ++ step n
          | None => step 0
          end
      end
  end.

Definition re_sub (pattern repl string : str) : outcome str :=
  let! r := re_compile pattern in
  let! t := compile_repl repl (ngroups_of r) in
  Ret (sub_go r t string 0 0).

(** ** filter_datum *)
Fixpoint filter_datum (fields : list str) (redaction message separator : str)
  : outcome str :=
  match fields with
  | [] => Ret message
  | field :: fields' =>
      let pattern := field ++ py "=(.*?)" ++ [backslash] ++ separator in
      let replacement := field ++ py "=" ++ redaction ++ separator in
      let! message' := re_sub pattern replacement message in
      filter_datum fields' redaction message' separator
  end.


(** * The rest of the module *)

Definition PII_FIELDS : list str :=
  [py "name"; py "email"; py "phone"; py "ssn"; py "password"].

(** ** Log records and logging.Formatter

    A record carries what the format string of the module reads.  The
    rendering of the creation time is taken from the record. *)
Record LogRecord : Type := {
  rec_name : str;
  rec_levelno : nat;
  rec_levelname : str;
  rec_asctime : str;
  rec_message : str;
  rec_exc_text : str;          (* empty without exception information *)
  rec_stack_info : str         (* empty without stack information *)
}.

Fixpoint str_eqb (a b : str) : bool :=
  match a, b with
  | [], [] => true
  | x :: a', y :: b' => chr_eqb x y && str_eqb a' b'
  | _, _ => false
  end.

Definition record_get (record : LogRecord) (key : str) : option str :=
  if str_eqb key (py "name") then Some (rec_name record)
  else if str_eqb key (py "levelname") then Some (rec_levelname record)
  else if str_eqb key (py "asctime") then Some (rec_asctime record)
  else if str_eqb key (py "message") then Some (rec_message record)
  else None.

(** [%]-formatting with a mapping, for the conversions [%(key)s],
    [%(key)-Ns], [%(key)Ns] and [%%]. *)
Inductive pstate : Type :=
| PText
| PPercent
| PKey (acc : str)
| PSpec (key : str) (ljust : bool) (width : nat).

Definition pad (ljust : bool) (width : nat) (v : str) : str :=
  let fill := repeat " "%char (width - length v) in
  if ljust then v ++ fill else fill ++ v.

Fixpoint percent_go (fmt : str) (st : pstate) (d : str -> option str)
  : outcome str :=
  match fmt with
  | [] => match st with
          | PText => Ret []
          | _ => Unmodelled
          end
  | c :: rest =>
      match st with
      | PText =>
          if chr_eqb c "%" then percent_go rest PPercent d
          else let! s := percent_go rest PText d in Ret (c :: s)
      | PPercent =>
          if chr_eqb c "(" then percent_go rest (PKey []) d
          else if chr_eqb c "%" then
            let! s := percent_go rest PText d in Ret ("%"%char :: s)
          else Unmodelled
      | PKey acc =>
          if chr_eqb c ")" then percent_go rest (PSpec (rev acc) false 0) d
          else if chr_eqb c "(" then Unmodelled
          else percent_go rest (PKey (c :: acc)) d
      | PSpec key ljust width =>
          if chr_eqb c "-" then
            if Nat.eqb width 0 then percent_go rest (PSpec key true 0) d
            else Unmodelled
          else if is_digit c then
            percent_go rest (PSpec key ljust (10 * width + digit_val c)) d
          else if chr_eqb c "s" then
            match d key with
            | Some v => let! s := percent_go rest PText d in
                        Ret (pad ljust width v ++ s)
            | None => Unmodelled
            end
          else Unmodelled
      end
  end.

Definition ends_with_newline (s : str) : bool :=
  match last s with
  | Some c => chr_eqb c newline
  | None => false
  end.

Definition append_block (s block : str) : str :=
  match block with
  | [] => s
  | _ :: _ => (if ends_with_newline s then s else s ++ [newline]) ++ block
  end.

(** logging.Formatter.format with the format string [fmt]. *)
Definition Formatter_format (fmt : str) (record : LogRecord) : outcome str :=
  let! s := percent_go fmt PText (record_get record) in
  Ret (append_block (append_block s (rec_exc_text record))
         (rec_stack_info record)).

(** ** RedactingFormatter *)
Record RedactingFormatter : Type := { fields : list str }.

Definition REDACTION : str := py "***".
Definition FORMAT : str :=
  py "[HOLBERTON] %(name)s %(levelname)s %(asctime)-15s: %(message)s".
Definition SEPARATOR : str := py ";".

Definition RedactingFormatter_init (fields : list str) : RedactingFormatter :=
  {| fields := fields |}.

Definition RedactingFormatter_format (self : RedactingFormatter)
  (record : LogRecord) : outcome str :=
  let! line := Formatter_format FORMAT record in
  filter_datum (fields self) REDACTION line SEPARATOR.

(** ** Loggers

    The loggers of the process are shared objects, looked up by name: the
    store is a map from names to loggers, and a logger is referred to by its
    name. *)
Inductive stream : Type := Stderr | Stdout.

Record Handler : Type := {
  h_stream : stream;
  h_level : nat;
  h_formatter : option RedactingFormatter
}.

Record Logger : Type := {
  level : nat;
  propagate : bool;
  handlers : list Handler
}.

Definition NOTSET : nat := 0.
Definition DEBUG : nat := 10.
Definition INFO : nat := 20.
Definition WARNING : nat := 30.

(** logging.StreamHandler(): without argument the stream is sys.stderr. *)
Definition StreamHandler : Handler :=
  {| h_stream := Stderr; h_level := NOTSET; h_formatter := None |}.

Definition setFormatter (h : Handler) (f : RedactingFormatter) : Handler :=
  {| h_stream := h_stream h; h_level := h_level h; h_formatter := Some f |}.

Definition new_logger : Logger :=
  {| level := NOTSET; propagate := true; handlers := [] |}.

(** logging.getLogger(name): the logger of that name, made if there is none. *)
Definition getLogger (name : str) (store : gmap str Logger) : gmap str Logger :=
  match store !! name with
  | Some _ => store
  | None => <[name := new_logger]> store
  end.

Definition setLevel (lvl : nat) (l : Logger) : Logger :=
  {| level := lvl; propagate := propagate l; handlers := handlers l |}.

Definition set_propagate (b : bool) (l : Logger) : Logger :=
  {| level := level l; propagate := b; handlers := handlers l |}.

Definition addHandler (h : Handler) (l : Logger) : Logger :=
  {| level := level l; propagate := propagate l; handlers := handlers l ++ [h] |}.

(** get_logger: the name of the logger it returns, and the store after it. *)
Definition get_logger (store : gmap str Logger) : str * gmap str Logger :=
  let name := py "user_data" in
  let store := getLogger name store in
  let store := alter (setLevel INFO) name store in
  let store := alter (set_propagate false) name store in
  let handler := StreamHandler in
  let handler := setFormatter handler (RedactingFormatter_init PII_FIELDS) in
  let store := alter (addHandler handler) name store in
  (name, store).

(** What a logger does with a record; [ancestors] are its parent, the parent
    of the parent and so on. *)
Fixpoint getEffectiveLevel (l : Logger) (ancestors : list Logger) : nat :=
  if Nat.eqb (level l) NOTSET then
    match ancestors with
    | p :: rest => getEffectiveLevel p rest
    | [] => NOTSET
    end
  else level l.

Definition isEnabledFor (l : Logger) (ancestors : list Logger) (lvl : nat) : bool :=
  getEffectiveLevel l ancestors <=? lvl.

Definition handle (h : Handler) (record : LogRecord)
  : list (stream * outcome str) :=
  if h_level h <=? rec_levelno record then
    match h_formatter h with
    | Some f => [(h_stream h, RedactingFormatter_format f record)]
    | None => [(h_stream h, Ret (rec_message record))]
    end
  else [].

Fixpoint callHandlers (l : Logger) (ancestors : list Logger) (record : LogRecord)
  : list (stream * outcome str) :=
  flat_map (fun h => handle h record) (handlers l) ++
  (if propagate l then
     match ancestors with
     | p :: rest => callHandlers p rest record
     | [] => []
     end
   else []).

(** Logger.log: the lines written, with the stream of each. *)
Definition Logger_log (l : Logger) (ancestors : list Logger) (record : LogRecord)
  : list (stream * outcome str) :=
  if isEnabledFor l ancestors (rec_levelno record)
  then callHandlers l ancestors record
  else [].

(** ** The database *)
Record connect_args : Type := {
  arg_host : str;
  arg_database : option str;
  arg_user : str;
  arg_password : str
}.

(** os.environ.get(key, default) *)
Definition environ_get (environ : gmap str str) (key dflt : str) : str :=
  default dflt (environ !! key).

Inductive event : Type :=
| Printed (line : str)
| CursorClosed
| ConnectionClosed.

Section Driver.
(** The driver: connections, the rows a query yields, and the text of a
    value in an f-string. *)
Variables (connection value : Type).
Variable connect : connect_args -> outcome connection.
Variable execute : connection -> str -> outcome (list (list value)).
Variable to_str : value -> str.

Definition get_db (environ : gmap str str) : outcome connection :=
  let password := environ_get environ (py "PERSONAL_DATA_DB_PASSWORD") (py "") in
  let username := environ_get environ (py "PERSONAL_DATA_DB_USERNAME") (py "root") in
  let host := environ_get environ (py "PERSONAL_DATA_DB_HOST") (py "localhost") in
  let db_name := environ !! py "PERSONAL_DATA_DB_NAME" in
  connect {| arg_host := host; arg_database := db_name;
             arg_user := username; arg_password := password |}.

(** row[i] *)
Definition item (row : list value) (i : nat) : outcome str :=
  match row !! i with
  | Some v => Ret (to_str v)
  | None => Raise IndexError
  end.

(** The message of one row. *)
Definition row_message (row : list value) : outcome str :=
  let! v0 := item row 0 in
  let! v1 := item row 1 in
  let! v2 := item row 2 in
  let! v3 := item row 3 in
  let! v4 := item row 4 in
  let! v5 := item row 5 in
  let! v6 := item row 6 in
  let! v7 := item row 7 in
  Ret (py "name=" ++ v0 ++ py "; email=" ++ v1 ++ py "; phone=" ++ v2 ++ py "; "
       ++ py "ssn=" ++ v3 ++ py "; password=" ++ v4 ++ py "; ip=" ++ v5 ++ py "; "
       ++ py "last_login=" ++ v6 ++ py "; user_agent=" ++ v7 ++ py ";").

(** The loop over the rows: what happened, and how it ended. *)
Fixpoint report (rows : list (list value)) : list event * outcome unit :=
  match rows with
  | [] => ([], Ret tt)
  | row :: rows' =>
      match row_message row with
      | Ret message =>
          let (evs, res) := report rows' in (Printed message :: evs, res)
      | Raise e => ([], Raise e)
      | Unmodelled => ([], Unmodelled)
      end
  end.

Definition main (environ : gmap str str) : list event * outcome unit :=
  match get_db environ with
  | Ret db =>
      match execute db (py "SELECT * FROM users;") with
      | Ret rows =>
          match report rows with
          | (evs, Ret _) => (evs ++ [CursorClosed; ConnectionClosed], Ret tt)
          | (evs, res) => (evs, res)
          end
      | Raise e => ([], Raise e)
      | Unmodelled => ([], Unmodelled)
      end
  | Raise e => ([], Raise e)
  | Unmodelled => ([], Unmodelled)
  end.
End Driver.

(** * Field patterns without special characters

    What [filter_datum] compiles and runs when a field name is made of
    characters the pattern parser takes literally and the separator is one
    character that the backslash before it leaves as it is. *)

Definition lits (g : str) (tail : regex) : regex :=
  fold_right (fun x acc => Seq (Chr (ALit x)) acc) tail g.

(** The parsed form of [g=(.*?)\c]. *)
Definition field_regex (g : str) (c : ascii) : regex :=
  lits g
    (Seq (Chr (ALit "="))
       (Seq (Group 1 (Seq (Rep QStar true AAny) Eps))
          (Seq (Chr (ALit c)) Eps))).

Definition free_of (x : ascii) (s : str) : bool :=
  forallb (fun y => negb (chr_eqb y x)) s.

(** No character of the name is special in a pattern. *)
Definition literal_name (g : str) : bool :=
  forallb (fun y => negb (is_special y)) g.

(** A backslash before the character is neither a class, an anchor, a
    control character, a group reference nor an error; and the character is
    not a backslash itself. *)
Definition escapable (c : ascii) : bool :=
  negb (is_ascii_letter c) && negb (is_digit c) && negb (chr_eqb c backslash).

(** Python's [g in m]. *)
Fixpoint occurs (g m : str) : bool :=
  is_prefix g m ||
  match m with
  | [] => false
  | _ :: m' => occurs g m'
  end.

(** Where [.*?] followed by the separator stops: the number of characters
    before the first separator, if no newline comes before it. *)
Fixpoint scan (c : ascii) (s : str) : option nat :=
  match s with
  | [] => None
  | x :: s' =>
      if chr_eqb x c then Some 0
      else if chr_eqb x newline then None
      else option_map S (scan c s')
  end.

(** The length of the match of [L(.*?)\c] at the start of [s]. *)
Definition hit (L : str) (c : ascii) (s : str) : option nat :=
  if is_prefix L s
  then option_map (fun n => length L + n + 1) (scan c (drop (length L) s))
  else None.

(** [re.sub] for such a pattern and the replacement [repl], as a scan. *)
Fixpoint redact_go (L : str) (c : ascii) (repl s : str) (skip : nat) : str :=
  match skip with
  | S n => match s with
           | [] => []
           | _ :: s' => redact_go L c repl s' n
           end
  | 0 =>
      match hit L c s with
      | None => match s with
                | [] => []
                | x :: s' => x :: redact_go L c repl s' 0
                end
      | Some len =>
          repl ++ match s with
                  | [] => []
                  | _ :: s' => redact_go L c repl s' (len - 1)
                  end
      end
  end.

(** The key of a field and the text that replaces a match. *)
Definition key (g : str) : str := g ++ ["="%char].

Definition key_repl (marker : str) (c : ascii) (g : str) : str :=
  g ++ ["="%char] ++ marker ++ [c].

(** One turn of the loop of [filter_datum], for the field [g]. *)
Definition pass (marker : str) (c : ascii) (g m : str) : str :=
  redact_go (g ++ ["="%char]) c (g ++ ["="%char] ++ marker ++ [c]) m 0.

Definition run (marker : str) (c : ascii) (fields : list str) (m : str) : str :=
  fold_left (fun acc g => pass marker c g acc) fields m.

(** ** Segments

    A message is cut by the separator into segments.  When neither the
    field names nor the marker contain the separator, a pass works on each
    segment on its own: in a segment the first place where the key [g=] is
    followed by no newline up to the end is where the value is replaced. *)

Definition stop (g W : str) : bool :=
  is_prefix (g ++ ["="%char]) W && free_of newline (drop (length g + 1) W).

Fixpoint seg (marker g W : str) : str :=
  if stop g W then g ++ ["="%char] ++ marker
  else match W with
       | [] => []
       | x :: W' => x :: seg marker g W'
       end.

(** All the fields at once. *)
Fixpoint segs (marker : str) (gs : list str) (W : str) : str :=
  match find (fun g => stop g W) gs with
  | Some g => g ++ ["="%char] ++ marker
  | None => match W with
            | [] => []
            | x :: W' => x :: segs marker gs W'
            end
  end.

Definition seg_run (marker : str) (fields : list str) (W : str) : str :=
  fold_left (fun acc g => seg marker g acc) fields W.

(** The names, markers and separators for which the redaction is the
    key-value redaction the module is written for. *)
Definition plain_name (c : ascii) (g : str) : bool :=
  literal_name g && free_of "=" g && free_of c g.

Definition plain_marker (c : ascii) (marker : str) : bool :=
  free_of backslash marker && free_of "=" marker && free_of newline marker
  && free_of c marker.

Definition plain_sep (c : ascii) : bool :=
  escapable c && negb (chr_eqb c "=").

(** ** Rows of eight columns

    The line the specification gives for a row [(v0, ..., v7)], written
    from its words, to compare with what [main] prints. *)
Record row8 (value : Type) : Type := Row8 {
  col0 : value; col1 : value; col2 : value; col3 : value;
  col4 : value; col5 : value; col6 : value; col7 : value
}.

Arguments Row8 {value} _ _ _ _ _ _ _ _.
Arguments col0 {value} _.
Arguments col1 {value} _.
Arguments col2 {value} _.
Arguments col3 {value} _.
Arguments col4 {value} _.
Arguments col5 {value} _.
Arguments col6 {value} _.
Arguments col7 {value} _.

Definition as_row {value : Type} (r : row8 value) : list value :=
  [col0 r; col1 r; col2 r; col3 r; col4 r; col5 r; col6 r; col7 r].

Definition spec_line {value : Type} (to_str : value -> str) (r : row8 value) : str :=
  py "name=" ++ to_str (col0 r) ++ py "; email=" ++ to_str (col1 r)
  ++ py "; phone=" ++ to_str (col2 r) ++ py "; ssn=" ++ to_str (col3 r)
  ++ py "; password=" ++ to_str (col4 r) ++ py "; ip=" ++ to_str (col5 r)
  ++ py "; last_login=" ++ to_str (col6 r) ++ py "; user_agent=" ++ to_str (col7 r)
  ++ py ";".

(** A field name that is a key: no special character and no [=]. *)
Definition key_name (g : str) : bool := literal_name g && free_of "=" g.

(** ** Messages made of records

    A record is a key, [=], a value and the separator. *)
Definition record_text (c : ascii) (kv : str * str) : str :=
  fst kv ++ ["="%char] ++ snd kv ++ [c].

(** Python's [k.endswith(g)]. *)
Fixpoint ends_with (k g : str) : bool :=
  str_eqb k g ||
  match k with
  | [] => false
  | _ :: k' => ends_with k' g
  end.

(** The key ends with one of the field names. *)
Definition watched (gs : list str) (k : str) : bool :=
  existsb (ends_with k) gs.

Definition redact_record (marker : str) (gs : list str) (kv : str * str)
  : str * str :=
  if watched gs (fst kv) && free_of newline (snd kv)
  then (fst kv, marker)
  else kv.

Definition plain_record (c : ascii) (kv : str * str) : bool :=
  free_of "=" (fst kv) && free_of c (fst kv)
  && free_of "=" (snd kv) && free_of c (snd kv).

(** Number of separators of a message. *)
Fixpoint count_sep (c : ascii) (m : str) : nat :=
  match m with
  | [] => 0
  | x :: m' => (if chr_eqb x c then 1 else 0) + count_sep c m'
  end.

(** ** The parts of a formatted line *)
Definition line_prefix (record : LogRecord) : str :=
  py "[HOLBERTON] " ++ rec_name record ++ py " " ++ rec_levelname record
  ++ py " " ++ pad true 15 (rec_asctime record) ++ py ": ".

Definition record_body (record : LogRecord) : str :=
  append_block (append_block (rec_message record) (rec_exc_text record))
    (rec_stack_info record).




(** The line of a row with the five personal columns hidden. *)
Definition hidden_line {value : Type} (to_str : value -> str) (r : row8 value)
  : str :=
  py "name=***; email=***; phone=***; ssn=***; password=***; ip="
  ++ to_str (col5 r) ++ py "; last_login=" ++ to_str (col6 r)
  ++ py "; user_agent=" ++ to_str (col7 r) ++ py ";".

(** A text that can stand as a value of a line: no [=] and no [;]. *)
Definition plain_text (v : str) : bool := free_of "=" v && free_of ";" v.

(** * Properties of the model of [re] *)

(** ** Characters *)

Lemma chr_eqb_eq (a b : ascii) : chr_eqb a b = true <-> a = b.
Proof. apply Ascii.eqb_eq. Qed.

Lemma chr_eqb_refl (a : ascii) : chr_eqb a a = true.
Proof. apply Ascii.eqb_refl. Qed.

Lemma chr_eqb_neq (a b : ascii) : chr_eqb a b = false <-> a <> b.
Proof. apply Ascii.eqb_neq. Qed.

Lemma chr_eqb_sym (a b : ascii) : chr_eqb a b = chr_eqb b a.
Proof. apply Ascii.eqb_sym. Qed.

(** A character that is not special is a literal of the pattern. *)
Lemma classify_plain (c : ascii) : is_special c = false -> classify c = PLiteral.
Proof.
  destruct c as [[] [] [] [] [] [] [] []]; vm_compute; congruence.
Qed.

(** A backslash before a character that is neither an ASCII letter nor a
    digit stands for the character. *)
Lemma parse_escape_literal (c : ascii) (rest : str) (ng : nat) (open : list nat) :
  is_ascii_letter c = false -> is_digit c = false ->
  parse_escape c rest ng open = Ret (Chr (ALit c), 0).
Proof.
  intros Hl Hd. unfold parse_escape. rewrite Hl.
  assert (chr_eqb c "0" = false) as ->.
  { apply chr_eqb_neq. intros ->. discriminate Hd. }
  now rewrite Hd.
Qed.

(** ** Parsing a field pattern *)

Lemma fold_left_lits (g : str) (tail : regex) :
  fold_left (fun acc it => Seq it acc) (rev (map (fun x => Chr (ALit x)) g)) tail
  = lits g tail.
Proof.
  unfold lits. rewrite <- fold_left_rev_right, rev_involutive.
  induction g as [|x g IH]; simpl; [reflexivity|]. now rewrite IH.
Qed.

Lemma parse_go_lits (g rest : str) (top : frame) (stack : list frame) (ng : nat) :
  literal_name g = true ->
  parse_go (g ++ rest) top stack ng =
  parse_go rest
    (set_items top (rev (map (fun x => Chr (ALit x)) g) ++ fr_items top)) stack ng.
Proof.
  revert top. induction g as [|x g IH]; intros top Hg.
  - destruct top; reflexivity.
  - simpl in Hg. apply andb_prop in Hg as [Hx Hg].
    apply negb_true_iff in Hx.
    cbn [app parse_go]. rewrite (classify_plain x Hx), (IH _ Hg).
    destruct top as [n alts items]. cbn. now rewrite <- app_assoc.
Qed.

Lemma re_compile_field (g : str) (c : ascii) :
  literal_name g = true -> escapable c = true ->
  re_compile (g ++ py "=(.*?)" ++ [backslash] ++ [c]) = Ret (field_regex g c).
Proof.
  intros Hg Hc. unfold escapable in Hc.
  apply andb_prop in Hc as [Hc Hbs]. apply andb_prop in Hc as [Hl Hd].
  apply negb_true_iff in Hl, Hd.
  unfold re_compile. rewrite (parse_go_lits _ _ _ _ _ Hg).
  cbn -[parse_escape]. rewrite (parse_escape_literal _ _ _ _ Hl Hd).
  cbn. now rewrite app_nil_r, fold_left_lits.
Qed.

(** ** Matching a field pattern *)

Lemma is_prefix_app (a b s : str) :
  is_prefix (a ++ b) s = is_prefix a s && is_prefix b (drop (length a) s).
Proof.
  revert s. induction a as [|x a IH]; intros s; [reflexivity|].
  destruct s as [|y s]; cbn; [reflexivity|].
  rewrite IH. now rewrite andb_assoc.
Qed.

Lemma is_prefix_spec (t s : str) :
  is_prefix t s = true <-> exists r, s = t ++ r.
Proof.
  revert s. induction t as [|x t IH]; intros s; cbn.
  - split; [eauto | reflexivity].
  - destruct s as [|y s].
    + split; [discriminate | intros [r Hr]; discriminate].
    + rewrite andb_true_iff, chr_eqb_eq, IH. split.
      * intros [-> [r ->]]. eauto.
      * intros [r Hr]. injection Hr as -> ->. eauto.
Qed.

Lemma is_prefix_refl_app (t r : str) : is_prefix t (t ++ r) = true.
Proof. apply is_prefix_spec. eauto. Qed.

Lemma lits_app (a b : str) (tail : regex) :
  lits (a ++ b) tail = lits a (lits b tail).
Proof. unfold lits. now rewrite fold_right_app. Qed.

Lemma re_match_lits (g : str) (tail : regex) (s : str) (pos : nat) (cs : caps)
  (k : kont) :
  re_match (lits g tail) s pos cs k =
  if is_prefix g s
  then re_match tail (drop (length g) s) (pos + length g) cs k
  else None.
Proof.
  revert s pos. induction g as [|x g IH]; intros s pos.
  - cbn. now rewrite Nat.add_0_r.
  - cbn [lits fold_right re_match one atom_ok is_prefix length].
    fold (lits g tail).
    destruct s as [|y s]; [reflexivity|].
    unfold one, atom_ok. rewrite (chr_eqb_sym y x).
    destruct (chr_eqb x y); [|reflexivity].
    cbn [andb drop]. rewrite IH. now rewrite Nat.add_succ_comm.
Qed.

(** The lazy value followed by the separator stops where [scan] says. *)
Lemma star_lazy_value (c : ascii) (s1 : str) (adv : bool) (p0 p1 : nat) :
  p0 < p1 ->
  forall (s : str) (n : nat),
  star_lazy AAny s (p1 + n) []
    (fun s' p' cs' =>
       one (ALit c) s' p' ((1, take (p' - p1) s1) :: cs')
         (fun _ p'' cs'' =>
            if adv && Nat.eqb p'' p0 then None else Some (p'' - p0, cs'')))
  = option_map (fun m => (p1 + n + m + 1 - p0, [(1, take (n + m) s1)]))
      (scan c s).
Proof.
  intros Hp. induction s as [|x s IH]; intros n; [reflexivity|].
  cbn [star_lazy one atom_ok scan].
  destruct (chr_eqb x c) eqn:Hx.
  - cbn [or_else option_map].
    replace (Nat.eqb (S (p1 + n)) p0) with false
      by (symmetry; apply Nat.eqb_neq; lia).
    rewrite andb_false_r. cbn [or_else option_map].
    repeat (f_equal; try lia).
  - cbn [or_else]. destruct (chr_eqb x newline); cbn [negb]; [reflexivity|].
    replace (S (p1 + n)) with (p1 + S n) by lia. rewrite IH.
    destruct (scan c s); cbn [option_map]; [|reflexivity].
    repeat (f_equal; try lia).
Qed.

Lemma match_at_field (g : str) (c : ascii) (s : str) (pos : nat) (adv : bool) :
  match_at (field_regex g c) s pos adv =
  option_map
    (fun len => (len, [(1, take (len - length g - 2) (drop (length g + 1) s))]))
    (hit (g ++ ["="%char]) c s).
Proof.
  unfold match_at, field_regex, hit.
  change (Seq (Chr (ALit "=")) ?t) with (lits ["="%char] t).
  rewrite <- lits_app, re_match_lits.
  destruct (is_prefix (g ++ ["="%char]) s); [|reflexivity].
  cbn [re_match rep star].
  rewrite length_app. cbn [length].
  set (s1 := drop (length g + 1) s).
  pose proof (star_lazy_value c s1 adv pos (pos + (length g + 1))
                ltac:(lia) s1 0) as H.
  rewrite Nat.add_0_r in H. cbn [Nat.add] in H.
  etransitivity; [exact H|].
  destruct (scan c s1); cbn [option_map]; [|reflexivity].
  repeat (f_equal; try lia).
Qed.

(** ** Substitution with a field pattern *)

Lemma expand_lits (x : str) (cs : caps) : expand (map TLit x) cs = x.
Proof. induction x as [|a x IH]; cbn; [reflexivity|]. now f_equal. Qed.

Lemma free_of_app (x : ascii) (a b : str) :
  free_of x (a ++ b) = free_of x a && free_of x b.
Proof. apply forallb_app. Qed.

Lemma free_of_cons (x y : ascii) (s : str) :
  free_of x (y :: s) = negb (chr_eqb y x) && free_of x s.
Proof. reflexivity. Qed.

Lemma compile_repl_plain (repl : str) (n : nat) :
  free_of backslash repl = true -> compile_repl repl n = Ret (map TLit repl).
Proof.
  intros H. unfold compile_repl.
  replace (existsb (chr_eqb backslash) repl) with false; [reflexivity|].
  symmetry. induction repl as [|x r IH]; [reflexivity|].
  rewrite free_of_cons in H. apply andb_prop in H as [Hx Hr].
  cbn [existsb]. rewrite (IH Hr), orb_false_r, chr_eqb_sym.
  now apply negb_true_iff.
Qed.

Lemma literal_name_no_backslash (g : str) :
  literal_name g = true -> free_of backslash g = true.
Proof.
  induction g as [|x g IH]; [reflexivity|]. cbn [literal_name forallb].
  intros H. apply andb_prop in H as [Hx Hg]. rewrite free_of_cons, (IH Hg).
  unfold is_special in Hx. rewrite negb_orb in Hx.
  apply andb_prop in Hx as [Hx _]. now rewrite Hx.
Qed.

Lemma hit_positive (L : str) (c : ascii) (s : str) (len : nat) :
  hit L c s = Some len -> exists n, len = S n.
Proof.
  unfold hit. destruct (is_prefix L s); [|discriminate].
  destruct (scan c _) as [n|]; [|discriminate]. cbn. intros [= <-].
  exists (length L + n). lia.
Qed.

Lemma sub_go_field (g : str) (c : ascii) (repl s : str) (pos skip : nat) :
  sub_go (field_regex g c) (map TLit repl) s pos skip =
  redact_go (g ++ ["="%char]) c repl s skip.
Proof.
  revert pos skip. induction s as [|x s IH]; intros pos skip.
  - destruct skip as [|n]; [|reflexivity].
    cbn [sub_go redact_go]. rewrite match_at_field.
    destruct (hit _ c []) as [len|] eqn:Hh; cbn [option_map]; [|reflexivity].
    destruct (hit_positive _ _ _ _ Hh) as [n ->].
    now rewrite expand_lits.
  - destruct skip as [|n]; [|cbn [sub_go redact_go]; apply IH].
    cbn [sub_go redact_go]. rewrite match_at_field.
    destruct (hit _ c (x :: s)) as [len|] eqn:Hh; cbn [option_map].
    + destruct (hit_positive _ _ _ _ Hh) as [n ->].
      rewrite expand_lits. cbn [Nat.eqb app]. now rewrite IH.
    + cbn [Nat.eqb app Nat.sub]. now rewrite IH.
Qed.

Lemma re_sub_field (marker : str) (c : ascii) (g m : str) :
  literal_name g = true -> escapable c = true ->
  free_of backslash marker = true ->
  re_sub (g ++ py "=(.*?)" ++ [backslash] ++ [c])
         (g ++ py "=" ++ marker ++ [c]) m
  = Ret (pass marker c g m).
Proof.
  intros Hg Hc Hm. unfold re_sub.
  rewrite (re_compile_field g c Hg Hc). cbn [bind].
  rewrite compile_repl_plain.
  - cbn [bind]. unfold pass. now rewrite sub_go_field.
  - rewrite !free_of_app, (literal_name_no_backslash g Hg), Hm.
    unfold escapable in Hc. apply andb_prop in Hc as [_ Hc].
    cbn. now rewrite Hc.
Qed.

(** With such names, marker and separator [filter_datum] returns, and what
    it returns is the fold of [pass] over the fields. *)
Lemma filter_datum_run (marker : str) (c : ascii) (fields : list str) (m : str) :
  forallb literal_name fields = true -> escapable c = true ->
  free_of backslash marker = true ->
  filter_datum fields marker m [c] = Ret (run marker c fields m).
Proof.
  intros Hf Hc Hm. revert m. induction fields as [|g fields IH]; intros m.
  - reflexivity.
  - cbn [forallb] in Hf. apply andb_prop in Hf as [Hg Hf].
    cbn [filter_datum]. rewrite (re_sub_field marker c g m Hg Hc Hm).
    cbn [bind run fold_left]. apply (IH Hf).
Qed.

(** * Properties of the scan *)

Section Scan.
Variables (L : str) (c : ascii) (repl : str).

Lemma redact_go_skip (s : str) (n : nat) :
  n <= length s ->
  redact_go L c repl s n = redact_go L c repl (drop n s) 0.
Proof.
  revert s. induction n as [|n IH]; intros s Hn.
  - now rewrite drop_0.
  - destruct s as [|x s]; cbn [length] in Hn; [lia|].
    cbn [redact_go drop]. apply IH. lia.
Qed.

Lemma scan_cfree (Y R : str) :
  free_of c Y = true ->
  scan c (Y ++ c :: R) = if free_of newline Y then Some (length Y) else None.
Proof.
  induction Y as [|y Y IH]; intros HY.
  - cbn. now rewrite chr_eqb_refl.
  - rewrite free_of_cons in HY. apply andb_prop in HY as [Hy HY].
    apply negb_true_iff in Hy. cbn [app scan]. rewrite Hy, free_of_cons.
    destruct (chr_eqb y newline); cbn [negb andb]; [reflexivity|].
    rewrite (IH HY). now destruct (free_of newline Y).
Qed.

Lemma scan_none (T : str) : free_of c T = true -> scan c T = None.
Proof.
  induction T as [|y T IH]; intros HT; [reflexivity|].
  rewrite free_of_cons in HT. apply andb_prop in HT as [Hy HT].
  apply negb_true_iff in Hy. cbn [scan]. rewrite Hy, (IH HT).
  now destruct (chr_eqb y newline).
Qed.

Lemma scan_bound (s : str) (n : nat) : scan c s = Some n -> n < length s.
Proof.
  revert n. induction s as [|y s IH]; intros n; [discriminate|].
  cbn [scan length]. destruct (chr_eqb y c); [intros [= <-]; lia|].
  destruct (chr_eqb y newline); [discriminate|].
  destruct (scan c s) as [m|]; [|discriminate].
  intros [= <-]. specialize (IH m eq_refl). lia.
Qed.

Lemma hit_bound (s : str) (len : nat) :
  hit L c s = Some len -> 1 <= len <= length s.
Proof.
  unfold hit. destruct (is_prefix L s) eqn:Hp; [|discriminate].
  apply is_prefix_spec in Hp as [r ->].
  rewrite drop_app_length.
  destruct (scan c r) as [n|] eqn:Hs; [|discriminate].
  intros [= <-]. apply scan_bound in Hs. rewrite length_app. lia.
Qed.

Lemma redact_go_hit (s : str) (len : nat) :
  hit L c s = Some len ->
  redact_go L c repl s 0 = repl ++ redact_go L c repl (drop len s) 0.
Proof.
  intros Hh. pose proof (hit_bound s len Hh) as Hb.
  destruct s as [|x s]; cbn [length] in Hb; [lia|].
  cbn [redact_go]. rewrite Hh. f_equal.
  destruct len as [|n]; [lia|]. cbn [drop Nat.sub].
  rewrite Nat.sub_0_r. apply redact_go_skip. lia.
Qed.

Lemma redact_go_miss (x : ascii) (s : str) :
  hit L c (x :: s) = None ->
  redact_go L c repl (x :: s) 0 = x :: redact_go L c repl s 0.
Proof. intros Hh. cbn [redact_go]. now rewrite Hh. Qed.

(** Without an occurrence of the key nothing is replaced. *)
Lemma redact_go_absent (s : str) :
  occurs L s = false -> redact_go L c repl s 0 = s.
Proof.
  induction s as [|x s IH]; cbn [occurs]; intros H;
    apply orb_false_elim in H as [Hp Ho].
  - cbn [redact_go]. unfold hit. now rewrite Hp.
  - rewrite redact_go_miss; [now rewrite (IH Ho)|].
    unfold hit. now rewrite Hp.
Qed.

(** Without a separator nothing is replaced. *)
Lemma redact_go_no_sep (T : str) :
  free_of c T = true -> redact_go L c repl T 0 = T.
Proof.
  induction T as [|x T IH]; intros HT.
  - cbn [redact_go]. unfold hit. destruct (is_prefix L []); [|reflexivity].
    now rewrite drop_nil.
  - assert (hit L c (x :: T) = None) as Hh.
    { unfold hit. destruct (is_prefix L (x :: T)) eqn:Hp; [|reflexivity].
      apply is_prefix_spec in Hp as [r Hr]. rewrite Hr, drop_app_length.
      rewrite Hr, free_of_app in HT. apply andb_prop in HT as [_ HT].
      now rewrite (scan_none r HT). }
    rewrite (redact_go_miss _ _ Hh). f_equal. apply IH.
    rewrite free_of_cons in HT. now apply andb_prop in HT as [_ HT].
Qed.
End Scan.

Lemma occurs_app_l (g x m : str) : occurs g m = false -> occurs (g ++ x) m = false.
Proof.
  induction m as [|y m IH]; cbn [occurs]; intros H;
    apply orb_false_elim in H as [Hp Ho]; rewrite is_prefix_app, Hp.
  - reflexivity.
  - now rewrite (IH Ho).
Qed.

Lemma pass_absent (marker : str) (c : ascii) (g m : str) :
  occurs g m = false -> pass marker c g m = m.
Proof. intros H. apply redact_go_absent. now apply occurs_app_l. Qed.

Lemma run_absent (marker : str) (c : ascii) (fields : list str) (m : str) :
  forallb (fun g => negb (occurs g m)) fields = true ->
  run marker c fields m = m.
Proof.
  induction fields as [|g fields IH]; [reflexivity|].
  cbn [forallb run fold_left]. intros H. apply andb_prop in H as [Hg Hf].
  apply negb_true_iff in Hg. rewrite (pass_absent _ _ _ _ Hg). now apply IH.
Qed.

(** * Passes work segment by segment *)

Lemma is_prefix_cfree (c : ascii) (L W R : str) :
  free_of c L = true -> is_prefix L (W ++ c :: R) = is_prefix L W.
Proof.
  revert W. induction L as [|x L IH]; intros W HL; [reflexivity|].
  rewrite free_of_cons in HL. apply andb_prop in HL as [Hx HL].
  apply negb_true_iff in Hx.
  destruct W as [|y W]; cbn [app is_prefix].
  - now rewrite Hx.
  - now rewrite (IH _ HL).
Qed.

Section Segments.
Variables (marker : str) (c : ascii).
Hypothesis marker_sep : free_of c marker = true.
Hypothesis sep_eq : chr_eqb c "=" = false.

Lemma key_cfree (g : str) :
  free_of c g = true -> free_of c (g ++ ["="%char]) = true.
Proof.
  intros Hg. rewrite free_of_app, Hg, free_of_cons.
  now rewrite chr_eqb_sym, sep_eq.
Qed.

(** The match at the start of a segment. *)
Lemma hit_segment (g W R : str) :
  free_of c g = true -> free_of c W = true ->
  hit (g ++ ["="%char]) c (W ++ c :: R) =
  if stop g W then Some (length W + 1) else None.
Proof.
  intros Hg HW. unfold hit, stop.
  rewrite (is_prefix_cfree _ _ _ _ (key_cfree g Hg)).
  replace (length g + 1) with (length (g ++ ["="%char]))
    by (rewrite length_app; reflexivity).
  set (K := g ++ ["="%char]).
  destruct (is_prefix K W) eqn:Hp; [|reflexivity].
  apply is_prefix_spec in Hp as [Y ->].
  rewrite drop_app_length, <- (app_assoc K), drop_app_length.
  rewrite free_of_app in HW. apply andb_prop in HW as [_ HY].
  rewrite (scan_cfree c Y R HY).
  destruct (free_of newline Y); cbn [andb option_map]; [|reflexivity].
  f_equal. rewrite !length_app. cbn [length]. lia.
Qed.

Lemma pass_segment (g W R : str) :
  free_of c g = true -> free_of c W = true ->
  pass marker c g (W ++ c :: R) = seg marker g W ++ c :: pass marker c g R.
Proof.
  intros Hg. unfold pass.
  induction W as [|x W IH]; intros HW.
  - pose proof (hit_segment g [] R Hg HW) as Hh. cbn [app] in Hh.
    cbn [seg]. destruct (stop g []) eqn:Hs.
    + rewrite (redact_go_hit _ _ _ _ _ Hh). cbn [length Nat.add drop].
      rewrite drop_0. now rewrite <- !app_assoc.
    + now rewrite (redact_go_miss _ _ _ _ _ Hh).
  - pose proof (hit_segment g (x :: W) R Hg HW) as Hh.
    cbn [seg]. destruct (stop g (x :: W)) eqn:Hs.
    + rewrite (redact_go_hit _ _ _ _ _ Hh).
      replace (length (x :: W) + 1) with (length ((x :: W) ++ [c]))
        by (rewrite length_app; reflexivity).
      change ((x :: W) ++ c :: R) with ((x :: W) ++ [c] ++ R).
      rewrite (app_assoc (x :: W)), drop_app_length.
      now rewrite <- !app_assoc.
    + cbn [app] in Hh |- *. rewrite (redact_go_miss _ _ _ _ _ Hh).
      f_equal. apply IH.
      rewrite free_of_cons in HW. now apply andb_prop in HW as [_ HW].
Qed.

Lemma pass_tail (g T : str) : free_of c T = true -> pass marker c g T = T.
Proof. apply redact_go_no_sep. Qed.

Lemma seg_cfree (g W : str) :
  free_of c g = true -> free_of c W = true ->
  free_of c (seg marker g W) = true.
Proof.
  intros Hg. induction W as [|x W IH]; intros HW; cbn [seg].
  - destruct (stop g []); [|reflexivity].
    now rewrite (app_assoc g), free_of_app, key_cfree, marker_sep.
  - destruct (stop g (x :: W)).
    + now rewrite (app_assoc g), free_of_app, key_cfree, marker_sep.
    + rewrite free_of_cons in HW |- *. apply andb_prop in HW as [Hx HW].
      now rewrite Hx, IH.
Qed.

Lemma seg_run_cfree (fields : list str) (W : str) :
  forallb (free_of c) fields = true -> free_of c W = true ->
  free_of c (seg_run marker fields W) = true.
Proof.
  revert W. induction fields as [|g fields IH]; intros W Hf HW; [exact HW|].
  cbn [forallb] in Hf. apply andb_prop in Hf as [Hg Hf].
  cbn [seg_run fold_left]. apply (IH _ Hf). now apply seg_cfree.
Qed.

Lemma run_segment (fields : list str) (W R : str) :
  forallb (free_of c) fields = true -> free_of c W = true ->
  run marker c fields (W ++ c :: R) =
  seg_run marker fields W ++ c :: run marker c fields R.
Proof.
  revert W R. induction fields as [|g fields IH]; intros W R Hf HW;
    [reflexivity|].
  cbn [forallb] in Hf. apply andb_prop in Hf as [Hg Hf].
  cbn [run seg_run fold_left]. rewrite (pass_segment g W R Hg HW).
  apply (IH _ _ Hf). now apply seg_cfree.
Qed.

Lemma run_tail (fields : list str) (T : str) :
  free_of c T = true -> run marker c fields T = T.
Proof.
  intros HT. induction fields as [|g fields IH]; [reflexivity|].
  cbn [run fold_left]. now rewrite (pass_tail g T HT).
Qed.
End Segments.

(** Every message is a run of segments closed by the separator and a rest
    without separator. *)
Lemma first_sep (c : ascii) (m : str) :
  free_of c m = true \/
  exists W R, m = W ++ c :: R /\ free_of c W = true.
Proof.
  induction m as [|x m IH]; [now left|].
  destruct (chr_eqb x c) eqn:Hx.
  - apply chr_eqb_eq in Hx as ->. right. now exists [], m.
  - destruct IH as [H | (W & R & -> & HW)].
    + left. now rewrite free_of_cons, Hx.
    + right. exists (x :: W), R. split; [reflexivity|].
      now rewrite free_of_cons, Hx.
Qed.

Lemma segments_ind (c : ascii) (P : str -> Prop) :
  (forall T, free_of c T = true -> P T) ->
  (forall W R, free_of c W = true -> P R -> P (W ++ c :: R)) ->
  forall m, P m.
Proof.
  intros Htail Hseg.
  enough (forall n m, length m <= n -> P m) as H
    by (intros m; now apply (H (length m))).
  induction n as [|n IHn]; intros m Hn;
    destruct (first_sep c m) as [H | (W & R & -> & HW)];
    try (now apply Htail);
    rewrite length_app in Hn; cbn [length] in Hn; [lia|].
  apply Hseg; [exact HW|]. apply IHn. lia.
Qed.

(** * The passes of several fields on one segment *)

Lemma free_of_head (x : ascii) (s : str) : free_of x (x :: s) = false.
Proof. now rewrite free_of_cons, chr_eqb_refl. Qed.

Lemma free_of_mid (x : ascii) (a s : str) : free_of x (a ++ x :: s) = false.
Proof. now rewrite free_of_app, free_of_head, andb_false_r. Qed.

Lemma split_unique (x : ascii) (a b r r' : str) :
  free_of x a = true -> free_of x b = true ->
  a ++ x :: r = b ++ x :: r' -> a = b /\ r = r'.
Proof.
  revert b. induction a as [|y a IH]; intros [|z b] Ha Hb H; cbn [app] in H.
  - injection H as ->. now split.
  - injection H as <- _. rewrite free_of_head in Hb. discriminate.
  - injection H as -> _. rewrite free_of_head in Ha. discriminate.
  - injection H as -> H. rewrite free_of_cons in Ha, Hb.
    apply andb_prop in Ha as [_ Ha]. apply andb_prop in Hb as [_ Hb].
    destruct (IH b Ha Hb H) as [-> ->]. now split.
Qed.

(** A text that ends a key cannot reach into a text without [=]. *)
Lemma key_inside (x : ascii) (a r p m : str) :
  free_of x m = true ->
  a ++ x :: r = p ++ m -> exists p2, p = a ++ x :: p2 /\ r = p2 ++ m.
Proof.
  intros Hm. revert p. induction a as [|y a IH]; intros [|z p] H; cbn [app] in H.
  - rewrite <- H, free_of_head in Hm. discriminate.
  - injection H as <- ->. now exists p.
  - rewrite <- H, free_of_cons, free_of_mid, andb_false_r in Hm. discriminate.
  - injection H as <- H. destruct (IH p H) as (p2 & -> & ->). now exists p2.
Qed.

Lemma stop_split (g W : str) :
  stop g W = true <->
  exists Y, W = g ++ ["="%char] ++ Y /\ free_of newline Y = true.
Proof.
  unfold stop.
  replace (length g + 1) with (length (g ++ ["="%char]))
    by (rewrite length_app; reflexivity).
  rewrite andb_true_iff, is_prefix_spec. split.
  - intros [[Y ->] HY]. rewrite drop_app_length in HY.
    exists Y. now rewrite <- app_assoc.
  - intros (Y & -> & HY). rewrite app_assoc, drop_app_length. eauto.
Qed.

Lemma key_unique (g1 g2 W : str) :
  free_of "=" g1 = true -> free_of "=" g2 = true ->
  stop g1 W = true -> stop g2 W = true -> g1 = g2.
Proof.
  intros H1 H2 S1 S2.
  apply stop_split in S1 as (Y1 & -> & _).
  apply stop_split in S2 as (Y2 & E & _).
  now destruct (split_unique _ _ _ _ _ H1 H2 E).
Qed.

Lemma seg_hit (marker g W : str) :
  stop g W = true -> seg marker g W = g ++ ["="%char] ++ marker.
Proof. intros H. destruct W; cbn [seg]; now rewrite H. Qed.

Lemma seg_miss (marker g : str) (x : ascii) (W : str) :
  stop g (x :: W) = false -> seg marker g (x :: W) = x :: seg marker g W.
Proof. intros H. cbn [seg]. now rewrite H. Qed.

Lemma segs_hit (marker : str) (gs : list str) (W g : str) :
  find (fun g => stop g W) gs = Some g ->
  segs marker gs W = g ++ ["="%char] ++ marker.
Proof. intros H. destruct W; cbn [segs]; now rewrite H. Qed.

Lemma segs_miss (marker : str) (gs : list str) (x : ascii) (W : str) :
  find (fun g => stop g (x :: W)) gs = None ->
  segs marker gs (x :: W) = x :: segs marker gs W.
Proof. intros H. cbn [segs]. now rewrite H. Qed.

Lemma stop_nil (g : str) : stop g [] = false.
Proof.
  destruct (stop g []) eqn:Hs; [|reflexivity].
  apply stop_split in Hs as (Y & E & _). now destruct g.
Qed.

Section SegmentTheory.
Variable marker : str.
Hypothesis marker_eq : free_of "=" marker = true.
Hypothesis marker_nl : free_of newline marker = true.

Lemma stop_no_eq (g W : str) : free_of "=" W = true -> stop g W = false.
Proof.
  intros HW. destruct (stop g W) eqn:Hs; [|reflexivity].
  apply stop_split in Hs as (Y & -> & _).
  cbn [app] in HW. rewrite free_of_mid in HW. discriminate.
Qed.

Lemma seg_no_eq (g W : str) : free_of "=" W = true -> seg marker g W = W.
Proof.
  induction W as [|x W IH]; intros HW; cbn [seg];
    rewrite (stop_no_eq g _ HW); [reflexivity|].
  rewrite free_of_cons in HW. apply andb_prop in HW as [_ HW].
  now rewrite (IH HW).
Qed.

Lemma stop_key (g Y : str) :
  free_of newline Y = true -> stop g (g ++ ["="%char] ++ Y) = true.
Proof. intros HY. apply stop_split. eauto. Qed.

(** A replaced segment is left alone by every other pass. *)
Lemma seg_key_marker (g g' : str) :
  free_of "=" g = true -> free_of "=" g' = true ->
  seg marker g (g' ++ ["="%char] ++ marker) = g' ++ ["="%char] ++ marker.
Proof.
  intros Hg. induction g' as [|x g' IH]; intros Hg'.
  - cbn [app seg]. destruct (stop g ("="%char :: marker)) eqn:Hs.
    + rewrite (key_unique g [] _ Hg eq_refl Hs (stop_key [] marker marker_nl)).
      reflexivity.
    + now rewrite (seg_no_eq g marker marker_eq).
  - cbn [app seg]. destruct (stop g (x :: g' ++ "="%char :: marker)) eqn:Hs.
    + now rewrite (key_unique g (x :: g') _ Hg Hg' Hs
                     (stop_key (x :: g') marker marker_nl)).
    + rewrite free_of_cons in Hg'. apply andb_prop in Hg' as [_ Hg'].
      f_equal. now apply IH.
Qed.

Variable gs : list str.
Hypothesis gs_eq : forallb (free_of "=") gs = true.

Lemma gs_found (W g : str) :
  find (fun g => stop g W) gs = Some g ->
  In g gs /\ free_of "=" g = true /\ stop g W = true.
Proof.
  intros H. apply find_some in H as [Hin Hs]. split; [exact Hin|].
  split; [|exact Hs]. rewrite forallb_forall in gs_eq. now apply gs_eq.
Qed.

Lemma segs_nl (Y : str) :
  free_of newline Y = true -> free_of newline (segs marker gs Y) = true.
Proof.
  induction Y as [|x Y IH]; intros HY; cbn [segs].
  - destruct (find _ gs) as [g|] eqn:Hf; [|reflexivity].
    apply gs_found in Hf as (_ & _ & Hs).
    apply stop_split in Hs as (Y' & E & _). now destruct g.
  - destruct (find _ gs) as [g|] eqn:Hf.
    + apply gs_found in Hf as (_ & _ & Hs).
      apply stop_split in Hs as (Y' & E & _).
      rewrite E, (app_assoc g), free_of_app in HY.
      apply andb_prop in HY as [HK _].
      now rewrite (app_assoc g), free_of_app, HK, marker_nl.
    + rewrite free_of_cons in HY |- *. apply andb_prop in HY as [Hx HY].
      now rewrite Hx, IH.
Qed.

(** The passes keep a key whose value has no newline. *)
Lemma segs_key (g Y : str) :
  free_of "=" g = true -> free_of newline Y = true ->
  exists Y', segs marker gs (g ++ ["="%char] ++ Y) = g ++ ["="%char] ++ Y'
             /\ free_of newline Y' = true.
Proof.
  intros Hg HY. induction g as [|x g IH].
  - cbn [app segs]. destruct (find _ gs) as [g1|] eqn:Hf.
    + apply gs_found in Hf as (_ & H1 & Hs).
      rewrite (key_unique g1 [] _ H1 eq_refl Hs (stop_key [] Y HY)).
      now exists marker.
    + exists (segs marker gs Y). split; [reflexivity|]. now apply segs_nl.
  - cbn [app segs]. destruct (find _ gs) as [g1|] eqn:Hf.
    + apply gs_found in Hf as (_ & H1 & Hs).
      rewrite (key_unique g1 (x :: g) _ H1 Hg Hs (stop_key (x :: g) Y HY)).
      now exists marker.
    + rewrite free_of_cons in Hg. apply andb_prop in Hg as [_ Hg].
      destruct (IH Hg) as (Y' & E & HY'). cbn [app] in E. rewrite E.
      now exists Y'.
Qed.

(** What the passes do to a segment. *)
Lemma segs_shape (W : str) :
  segs marker gs W = W \/
  exists A g Y, W = A ++ g ++ ["="%char] ++ Y /\ free_of newline Y = true /\
                segs marker gs W = A ++ g ++ ["="%char] ++ marker.
Proof.
  induction W as [|x W IH]; cbn [segs].
  - destruct (find _ gs) as [g|] eqn:Hf; [|now left].
    apply gs_found in Hf as (_ & _ & Hs).
    apply stop_split in Hs as (Y & E & HY). right. now exists [], g, Y.
  - destruct (find _ gs) as [g|] eqn:Hf.
    + apply gs_found in Hf as (_ & _ & Hs).
      apply stop_split in Hs as (Y & E & HY). right. now exists [], g, Y.
    + destruct IH as [-> | (A & g & Y & -> & HY & ->)]; [now left|].
      right. now exists (x :: A), g, Y.
Qed.

(** The passes create no place to stop. *)
Lemma stop_segs (g W : str) :
  stop g (segs marker gs W) = true -> stop g W = true.
Proof.
  destruct (segs_shape W) as [-> | (A & g1 & Y & -> & HY & ->)]; [easy|].
  intros Hs. apply stop_split in Hs as (Z & E & HZ).
  rewrite !(app_assoc A), !(app_assoc (A ++ g1)) in E |- *.
  symmetry in E. cbn [app] in E.
  destruct (key_inside _ _ _ _ _ marker_eq E) as (p2 & Ep & ->).
  rewrite Ep. apply stop_split. exists (p2 ++ Y). split.
  - now rewrite <- !app_assoc.
  - rewrite free_of_app in HZ |- *. apply andb_prop in HZ as [H2 _].
    now rewrite H2, HY.
Qed.

(** One more pass is one more field. *)
Lemma seg_segs (g W : str) :
  free_of "=" g = true ->
  seg marker g (segs marker gs W) = segs marker (g :: gs) W.
Proof.
  intros Hg. induction W as [|x W IH].
  - destruct (find (fun g => stop g []) gs) as [g1|] eqn:Hf.
    + rewrite (segs_hit _ _ _ _ Hf), (segs_hit marker (g :: gs) [] g1)
        by (cbn [find]; now rewrite stop_nil).
      apply gs_found in Hf as (_ & H1 & _). now apply seg_key_marker.
    + cbn [segs find]. rewrite stop_nil, Hf. cbn [seg].
      now rewrite stop_nil.
  - destruct (stop g (x :: W)) eqn:Hs.
    + rewrite (segs_hit marker (g :: gs) (x :: W) g)
        by (cbn [find]; now rewrite Hs).
      apply stop_split in Hs as (Y & E & HY).
      destruct (segs_key g Y Hg HY) as (Y' & E' & HY').
      rewrite E, E'. apply seg_hit. now apply stop_key.
    + destruct (find (fun g => stop g (x :: W)) gs) as [g1|] eqn:Hf.
      * rewrite (segs_hit _ _ _ _ Hf), (segs_hit marker (g :: gs) (x :: W) g1)
          by (cbn [find]; now rewrite Hs).
        apply gs_found in Hf as (_ & H1 & _). now apply seg_key_marker.
      * rewrite (segs_miss _ _ _ _ Hf), (segs_miss marker (g :: gs) x W)
          by (cbn [find]; now rewrite Hs).
        rewrite seg_miss; [now rewrite IH|].
        destruct (stop g (x :: segs marker gs W)) eqn:Hs2; [|reflexivity].
        rewrite <- Hs. symmetry. apply stop_segs.
        now rewrite (segs_miss _ _ _ _ Hf).
Qed.
End SegmentTheory.

(** * The whole loop on a segment and on a message *)

Lemma segs_nil (marker W : str) : segs marker [] W = W.
Proof. induction W as [|x W IH]; cbn [segs find]; [reflexivity|]. now rewrite IH. Qed.

Lemma segs_ext (marker : str) (gs1 gs2 : list str) :
  (forall V, find (fun g => stop g V) gs1 = find (fun g => stop g V) gs2) ->
  forall W, segs marker gs1 W = segs marker gs2 W.
Proof.
  intros H W. induction W as [|x W IH]; cbn [segs]; rewrite H; [reflexivity|].
  now rewrite IH.
Qed.

Lemma find_app_cases {A : Type} (p : A -> bool) (l l2 : list A) :
  find p (l ++ l2) =
  match find p l with
  | Some a => Some a
  | None => find p l2
  end.
Proof.
  induction l as [|x l IH]; cbn [find app]; [reflexivity|].
  now destruct (p x).
Qed.

Lemma find_twice {A : Type} (p : A -> bool) (l : list A) :
  find p (l ++ l) = find p l.
Proof. rewrite find_app_cases. now destruct (find p l). Qed.

Section Runs.
Variables (marker : str) (c : ascii).
Hypothesis marker_ok : plain_marker c marker = true.
Hypothesis sep_ok : plain_sep c = true.

Lemma marker_backslash : free_of backslash marker = true.
Proof.
  unfold plain_marker in marker_ok.
  now repeat (apply andb_prop in marker_ok as [marker_ok ?]).
Qed.

Lemma marker_eq : free_of "=" marker = true.
Proof.
  unfold plain_marker in marker_ok.
  now repeat (apply andb_prop in marker_ok as [marker_ok ?]).
Qed.

Lemma marker_nl : free_of newline marker = true.
Proof.
  unfold plain_marker in marker_ok.
  now repeat (apply andb_prop in marker_ok as [marker_ok ?]).
Qed.

Lemma marker_sep : free_of c marker = true.
Proof.
  unfold plain_marker in marker_ok.
  now repeat (apply andb_prop in marker_ok as [marker_ok ?]).
Qed.

Lemma sep_escapable : escapable c = true.
Proof. unfold plain_sep in sep_ok. now apply andb_prop in sep_ok as [? _]. Qed.

Lemma sep_eq : chr_eqb c "=" = false.
Proof.
  unfold plain_sep in sep_ok. apply andb_prop in sep_ok as [_ H].
  now apply negb_true_iff.
Qed.

Lemma plain_names_literal (fields : list str) :
  forallb (plain_name c) fields = true -> forallb literal_name fields = true.
Proof.
  rewrite !forallb_forall. intros H g Hg. specialize (H g Hg).
  unfold plain_name in H. now repeat (apply andb_prop in H as [H ?]).
Qed.

Lemma plain_names_eq (fields : list str) :
  forallb (plain_name c) fields = true -> forallb (free_of "=") fields = true.
Proof.
  rewrite !forallb_forall. intros H g Hg. specialize (H g Hg).
  unfold plain_name in H. now repeat (apply andb_prop in H as [H ?]).
Qed.

Lemma plain_names_sep (fields : list str) :
  forallb (plain_name c) fields = true -> forallb (free_of c) fields = true.
Proof.
  rewrite !forallb_forall. intros H g Hg. specialize (H g Hg).
  unfold plain_name in H. now repeat (apply andb_prop in H as [H ?]).
Qed.

(** The passes of the fields, in any order, are the passes of all of
    them at once. *)
Lemma seg_run_segs (fields gs : list str) (W : str) :
  forallb (free_of "=") fields = true -> forallb (free_of "=") gs = true ->
  seg_run marker fields (segs marker gs W) = segs marker (rev fields ++ gs) W.
Proof.
  revert gs. induction fields as [|g fields IH]; intros gs Hf Hgs;
    [reflexivity|].
  cbn [forallb] in Hf. apply andb_prop in Hf as [Hg Hf].
  cbn [seg_run fold_left rev].
  rewrite (seg_segs marker marker_eq marker_nl gs Hgs g W Hg).
  fold (seg_run marker fields (segs marker (g :: gs) W)).
  rewrite IH, <- app_assoc; [reflexivity|exact Hf|].
  cbn [forallb]. now rewrite Hg.
Qed.

Lemma seg_run_canon (fields : list str) (W : str) :
  forallb (free_of "=") fields = true ->
  seg_run marker fields W = segs marker (rev fields) W.
Proof.
  intros Hf. rewrite <- (segs_nil marker W) at 1.
  now rewrite seg_run_segs, app_nil_r.
Qed.

Lemma seg_run_idem (fields : list str) (W : str) :
  forallb (free_of "=") fields = true ->
  seg_run marker fields (seg_run marker fields W) = seg_run marker fields W.
Proof.
  intros Hf. rewrite (seg_run_canon fields W Hf).
  rewrite seg_run_segs; [|exact Hf|].
  - apply segs_ext. intros V. apply find_twice.
  - rewrite forallb_forall in Hf |- *. intros g Hg. apply Hf.
    now apply in_rev.
Qed.

Lemma seg_run_swap (a b W : str) :
  free_of "=" a = true -> free_of "=" b = true ->
  seg_run marker [a; b] W = seg_run marker [b; a] W.
Proof.
  intros Ha Hb.
  rewrite !seg_run_canon by (cbn [forallb]; now rewrite Ha, Hb).
  apply segs_ext. intros V. cbn [rev app find].
  destruct (stop a V) eqn:Sa, (stop b V) eqn:Sb; try reflexivity.
  now rewrite (key_unique a b V Ha Hb Sa Sb).
Qed.

(** On messages. *)
Lemma run_idem (fields : list str) (m : str) :
  forallb (plain_name c) fields = true ->
  run marker c fields (run marker c fields m) = run marker c fields m.
Proof.
  intros Hf. pose proof (plain_names_sep fields Hf) as Hc.
  pose proof (plain_names_eq fields Hf) as He.
  induction m as [T HT | W R HW IH] using (segments_ind c).
  - now rewrite !(run_tail marker c fields T HT).
  - rewrite (run_segment marker c marker_sep sep_eq fields W R Hc HW).
    rewrite (run_segment marker c marker_sep sep_eq fields _ _ Hc
               (seg_run_cfree marker c marker_sep sep_eq fields W Hc HW)).
    now rewrite IH, (seg_run_idem fields W He).
Qed.

Lemma run_swap (a b m : str) :
  plain_name c a = true -> plain_name c b = true ->
  run marker c [a; b] m = run marker c [b; a] m.
Proof.
  intros Ha Hb.
  assert (forallb (plain_name c) [a; b] = true) as Hab
    by (cbn [forallb]; now rewrite Ha, Hb).
  assert (forallb (plain_name c) [b; a] = true) as Hba
    by (cbn [forallb]; now rewrite Ha, Hb).
  pose proof (plain_names_eq _ Hab) as He. cbn [forallb] in He.
  apply andb_prop in He as [Ea Eb]. apply andb_prop in Eb as [Eb _].
  induction m as [T HT | W R HW IH] using (segments_ind c).
  - now rewrite !(run_tail marker c _ T HT).
  - rewrite (run_segment marker c marker_sep sep_eq _ W R
               (plain_names_sep _ Hab) HW).
    rewrite (run_segment marker c marker_sep sep_eq _ W R
               (plain_names_sep _ Hba) HW).
    now rewrite IH, (seg_run_swap a b W Ea Eb).
Qed.

End Runs.

(** * The loop on a message of one key and one value *)

Lemma scan_split (c : ascii) (r : str) (n : nat) :
  scan c r = Some n -> exists y r', r = y ++ c :: r' /\ length y = n.
Proof.
  revert n. induction r as [|x r IH]; intros n; [discriminate|].
  cbn [scan]. destruct (chr_eqb x c) eqn:Hx.
  - intros [= <-]. apply chr_eqb_eq in Hx as ->. now exists [], r.
  - destruct (chr_eqb x newline); [discriminate|].
    destruct (scan c r) as [k|]; [|discriminate]. intros [= <-].
    destruct (IH k eq_refl) as (y & r' & -> & Hy).
    exists (x :: y), r'. split; [reflexivity|]. cbn [length]. now rewrite Hy.
Qed.

Lemma last_sep_unique (c : ascii) (w X r' : str) :
  free_of c w = true -> w ++ [c] = X ++ c :: r' -> X = w /\ r' = [].
Proof.
  revert X. induction w as [|a w IH]; intros X Hw H.
  - destruct X as [|x X]; cbn [app] in H.
    + injection H as <-. now split.
    + injection H as _ H. now destruct X.
  - rewrite free_of_cons in Hw. apply andb_prop in Hw as [Ha Hw].
    destruct X as [|x X]; cbn [app] in H.
    + injection H as -> _. now rewrite chr_eqb_refl in Ha.
    + injection H as <- H. destruct (IH X Hw H) as [-> ->]. now split.
Qed.

Lemma hit_value (f v rest : str) (c : ascii) :
  free_of c v = true -> free_of newline v = true ->
  hit (f ++ ["="%char]) c (f ++ "="%char :: v ++ c :: rest)
  = Some (length f + length v + 2).
Proof.
  intros Hc Hn. unfold hit.
  change (f ++ "="%char :: v ++ c :: rest)
    with (f ++ ["="%char] ++ v ++ c :: rest).
  rewrite (app_assoc f), is_prefix_refl_app, drop_app_length.
  rewrite (scan_cfree c v rest Hc), Hn. cbn [option_map].
  f_equal. rewrite length_app. cbn [length]. lia.
Qed.

Lemma is_prefix_key_nil (g : str) : is_prefix (g ++ ["="%char]) [] = false.
Proof. now destruct g. Qed.

Section KeyValue.
Variables (marker : str) (c : ascii) (g : str).
Hypothesis marker_nl : free_of newline marker = true.
Hypothesis marker_sep : free_of c marker = true.
Hypothesis g_eq : free_of "=" g = true.

Lemma redact_key_nil : redact_go (key g) c (key_repl marker c g) [] 0 = [].
Proof. cbn [redact_go]. unfold hit, key. now rewrite is_prefix_key_nil. Qed.

(** A match that starts in the value takes the rest of the message. *)
Lemma hit_in_value (w : str) (len : nat) :
  free_of c w = true ->
  hit (key g) c (w ++ [c]) = Some len ->
  exists y, w = key g ++ y /\ len = length (w ++ [c]).
Proof.
  intros Hw. unfold hit.
  destruct (is_prefix (key g) (w ++ [c])) eqn:Hp; [|discriminate].
  apply is_prefix_spec in Hp as [r Hr]. rewrite Hr, drop_app_length.
  destruct (scan c r) as [n|] eqn:Hs; [|discriminate].
  intros [= <-]. apply scan_split in Hs as (y & r' & -> & Hy).
  rewrite app_assoc in Hr.
  destruct (last_sep_unique c w _ r' Hw Hr) as [<- ->].
  exists y. split; [reflexivity|].
  rewrite !length_app. cbn [length]. lia.
Qed.

(** The pass from a place in the value on. *)
Lemma value_pass (w : str) :
  free_of c w = true -> free_of newline w = true ->
  exists w',
    redact_go (key g) c (key_repl marker c g) (w ++ [c]) 0 = w' ++ [c] /\
    free_of c w' = true /\ free_of newline w' = true /\
    (free_of "=" w = true -> w' = w).
Proof.
  induction w as [|x w IH]; intros Hc Hn.
  - exists []. cbn [app].
    destruct (hit (key g) c [c]) as [len|] eqn:Hh.
    + destruct (hit_in_value [] len eq_refl Hh) as (y & E & _).
      unfold key in E. now destruct g.
    + now rewrite (redact_go_miss _ _ _ _ _ Hh), redact_key_nil.
  - destruct (hit (key g) c ((x :: w) ++ [c])) as [len|] eqn:Hh.
    + destruct (hit_in_value (x :: w) len Hc Hh) as (y & E & ->).
      rewrite (redact_go_hit _ _ _ _ _ Hh), drop_all, redact_key_nil.
      exists (key g ++ marker). rewrite E in Hc, Hn.
      rewrite free_of_app in Hc, Hn.
      apply andb_prop in Hc as [Hc _]. apply andb_prop in Hn as [Hn _].
      split; [unfold key_repl, key; now rewrite <- !app_assoc|].
      rewrite !free_of_app, Hc, Hn, marker_sep, marker_nl.
      split; [reflexivity|]. split; [reflexivity|].
      intros He. rewrite E in He. unfold key in He.
      rewrite <- app_assoc in He. cbn [app] in He.
      now rewrite free_of_mid in He.
    + cbn [app] in Hh |- *. rewrite (redact_go_miss _ _ _ _ _ Hh).
      rewrite free_of_cons in Hc, Hn.
      apply andb_prop in Hc as [Hxc Hc]. apply andb_prop in Hn as [Hxn Hn].
      destruct (IH Hc Hn) as (w' & -> & Hc' & Hn' & He).
      exists (x :: w'). split; [reflexivity|].
      rewrite !free_of_cons, Hxc, Hxn, Hc', Hn'.
      split; [reflexivity|]. split; [reflexivity|].
      intros H. rewrite ?free_of_cons in H. apply andb_prop in H as [_ H].
      now rewrite (He H).
Qed.

Lemma hit_other_key (f2 R : str) :
  free_of "=" f2 = true -> g <> f2 ->
  hit (key g) c (f2 ++ "="%char :: R) = None.
Proof.
  intros Hf2 Hne. unfold hit.
  destruct (is_prefix (key g) (f2 ++ "="%char :: R)) eqn:Hp; [|reflexivity].
  apply is_prefix_spec in Hp as [r Hr]. unfold key in Hr.
  rewrite <- app_assoc in Hr. cbn [app] in Hr. symmetry in Hr.
  now destruct (split_unique _ _ _ _ _ g_eq Hf2 Hr).
Qed.

(** The pass from a place in the key on. *)
Lemma key_pass (w : str) :
  free_of c w = true -> free_of newline w = true ->
  forall f2 : str,
    free_of "=" f2 = true ->
    exists w',
      redact_go (key g) c (key_repl marker c g) (f2 ++ "="%char :: w ++ [c]) 0
        = f2 ++ "="%char :: w' ++ [c] /\
      free_of c w' = true /\ free_of newline w' = true /\
      (g = f2 -> w' = marker) /\
      (free_of "=" w = true -> w' = w \/ w' = marker).
Proof.
  intros Hc Hn. induction f2 as [|x f2 IH]; intros Hf2.
  - destruct (decide (g = [])) as [Hg|Hg].
    + pose proof (hit_value [] w [] c Hc Hn) as Hh.
      cbn [app length] in Hh.
      exists marker. unfold key, key_repl. rewrite Hg. cbn [app].
      rewrite (redact_go_hit _ _ _ _ _ Hh).
      replace (0 + length w + 2) with (length ("="%char :: w ++ [c]))
        by (cbn [length]; rewrite length_app; cbn [length]; lia).
      rewrite drop_all. cbn [redact_go]. unfold hit. cbn [is_prefix].
      rewrite app_nil_r.
      split; [reflexivity|]. split; [exact marker_sep|].
      split; [exact marker_nl|]. split; [reflexivity|]. now right.
    + pose proof (hit_other_key [] (w ++ [c]) eq_refl Hg) as Hh.
      cbn [app] in Hh |- *. rewrite (redact_go_miss _ _ _ _ _ Hh).
      destruct (value_pass w Hc Hn) as (w' & -> & Hc' & Hn' & He).
      exists w'. split; [reflexivity|]. split; [exact Hc'|].
      split; [exact Hn'|]. split; [intros E; now contradiction Hg|].
      intros H. left. now apply He.
  - destruct (decide (g = x :: f2)) as [Hg|Hg].
    + pose proof (hit_value (x :: f2) w [] c Hc Hn) as Hh.
      exists marker. unfold key, key_repl. rewrite Hg.
      cbn [app] in Hh |- *. rewrite (redact_go_hit _ _ _ _ _ Hh).
      replace (length (x :: f2) + length w + 2)
        with (length (x :: f2 ++ "="%char :: w ++ [c]))
        by (cbn [length]; rewrite !length_app; cbn [length];
            rewrite length_app; cbn [length]; lia).
      rewrite drop_all.
      replace (redact_go _ c _ [] 0) with (@nil ascii)
        by (cbn [redact_go]; unfold hit; cbn [is_prefix]; reflexivity).
      rewrite app_nil_r.
      split; [reflexivity|]. split; [exact marker_sep|].
      split; [exact marker_nl|]. split; [reflexivity|]. now right.
    + pose proof (hit_other_key (x :: f2) (w ++ [c]) Hf2 Hg) as Hh.
      cbn [app] in Hh |- *. rewrite (redact_go_miss _ _ _ _ _ Hh).
      rewrite free_of_cons in Hf2. apply andb_prop in Hf2 as [_ Hf2].
      destruct (IH Hf2) as (w' & -> & Hc' & Hn' & _ & He).
      exists w'. split; [reflexivity|]. split; [exact Hc'|].
      split; [exact Hn'|]. split; [intros E; now contradiction Hg|exact He].
Qed.
End KeyValue.

Section KeyValueRun.
Variables (marker : str) (c : ascii) (f : str).
Hypothesis marker_eq : free_of "=" marker = true.
Hypothesis marker_nl : free_of newline marker = true.
Hypothesis marker_sep : free_of c marker = true.
Hypothesis f_eq : free_of "=" f = true.

Lemma run_keyvalue (fields : list str) :
  forallb (free_of "=") fields = true ->
  forall w : str,
    free_of c w = true -> free_of newline w = true ->
    exists w',
      run marker c fields (f ++ "="%char :: w ++ [c]) = f ++ "="%char :: w' ++ [c] /\
      (In f fields -> w' = marker) /\
      (w = marker -> w' = marker).
Proof.
  induction fields as [|g fields IH]; intros Hf w Hc Hn.
  - exists w. cbn [run fold_left]. repeat split; auto. intros [].
  - cbn [forallb] in Hf. apply andb_prop in Hf as [Hg Hf].
    destruct (key_pass marker c g marker_nl marker_sep Hg w Hc Hn f f_eq)
      as (w1 & E1 & Hc1 & Hn1 & Hgf & Hw1).
    destruct (IH Hf w1 Hc1 Hn1) as (w' & E & Hin & Hst).
    exists w'. cbn [run fold_left]. unfold pass.
    split.
    { unfold key, key_repl in E1. cbn [app] in E1 |- *. rewrite E1. exact E. }
    split.
    + intros [-> | Hin']; [|now apply Hin]. apply Hst. now apply Hgf.
    + intros ->. apply Hst. now destruct (Hw1 marker_eq).
Qed.
End KeyValueRun.

(** * The claims *)

(** ** The redactor *)

Lemma key_names_literal (fields : list str) :
  forallb key_name fields = true -> forallb literal_name fields = true.
Proof.
  rewrite !forallb_forall. intros H g Hg. specialize (H g Hg).
  unfold key_name in H. now apply andb_prop in H as [H _].
Qed.

Lemma key_names_eq (fields : list str) :
  forallb key_name fields = true -> forallb (free_of "=") fields = true.
Proof.
  rewrite !forallb_forall. intros H g Hg. specialize (H g Hg).
  unfold key_name in H. now apply andb_prop in H as [_ H].
Qed.

(** C1, as amended.  For field names without special characters and without
    [=], a marker without backslash, [=], newline and separator, a separator
    of one character that is neither a letter, a digit nor a backslash, and
    a value without separator and without newline: [filter_datum] turns the
    message [f=v<sep>], for [f] among the fields, into [f=<marker><sep>]; and
    the match of the pattern of [f] takes as value exactly [v], the
    characters up to the next separator, whatever follows that separator. *)
Theorem filter_datum_redacts_value (fields : list str) (marker : str) (c : ascii)
  (f v : str) :
  forallb key_name fields = true ->
  plain_marker c marker = true ->
  escapable c = true ->
  In f fields ->
  free_of c v = true ->
  free_of newline v = true ->
  filter_datum fields marker (f ++ py "=" ++ v ++ [c]) [c]
    = Ret (f ++ py "=" ++ marker ++ [c])
  /\ forall rest : str,
       exists r : regex,
         re_compile (f ++ py "=(.*?)" ++ [backslash] ++ [c]) = Ret r /\
         match_at r (f ++ py "=" ++ v ++ [c] ++ rest) 0 false
           = Some (length f + length v + 2, [(1, v)]).
Proof.
  intros Hf Hm Hc Hin Hvc Hvn.
  pose proof (key_names_literal fields Hf) as Hl.
  pose proof (key_names_eq fields Hf) as He.
  assert (literal_name f = true /\ free_of "=" f = true) as [Hfl Hfe].
  { rewrite forallb_forall in Hl, He. split; [now apply Hl | now apply He]. }
  split.
  - rewrite (filter_datum_run marker c fields _ Hl Hc
               (marker_backslash marker c Hm)).
    destruct (run_keyvalue marker c f (marker_eq marker c Hm)
                (marker_nl marker c Hm) (marker_sep marker c Hm) Hfe
                fields He v Hvc Hvn) as (w' & E & Hw & _).
    change (f ++ py "=" ++ v ++ [c]) with (f ++ "="%char :: v ++ [c]).
    rewrite E, (Hw Hin). reflexivity.
  - intros rest. exists (field_regex f c). split.
    + now apply re_compile_field.
    + rewrite match_at_field.
      change (f ++ py "=" ++ v ++ [c] ++ rest)
        with (f ++ "="%char :: v ++ c :: rest).
      rewrite (hit_value f v rest c Hvc Hvn).
      cbn [option_map]. do 4 f_equal.
      change (f ++ "="%char :: v ++ c :: rest)
        with (f ++ ["="%char] ++ v ++ c :: rest).
      replace (length f + 1) with (length (f ++ ["="%char]))
        by (rewrite length_app; reflexivity).
      rewrite (app_assoc f), drop_app_length.
      replace (length f + length v + 2 - length f - 2) with (length v) by lia.
      now rewrite take_app_length.
Qed.

Lemma filter_datum_redacts_value_witness :
  (forallb key_name PII_FIELDS = true /\
   plain_marker ";" (py "***") = true /\
   escapable ";" = true /\
   In (py "email") PII_FIELDS /\
   free_of ";" (py "bob@bob.com") = true /\
   free_of newline (py "bob@bob.com") = true) /\
  (filter_datum PII_FIELDS (py "***") (py "email=bob@bob.com;") (py ";")
     = Ret (py "email=***;")
   /\ forall rest : str,
        exists r : regex,
          re_compile (py "email" ++ py "=(.*?)" ++ [backslash] ++ [";"%char]) = Ret r /\
          match_at r (py "email" ++ py "=" ++ py "bob@bob.com" ++ [";"%char] ++ rest)
            0 false = Some (18, [(1, py "bob@bob.com")])).
Proof.
  assert (In (py "email") PII_FIELDS) as Hin by (right; left; reflexivity).
  split.
  - repeat split; try reflexivity. exact Hin.
  - exact (filter_datum_redacts_value PII_FIELDS (py "***") ";" (py "email")
             (py "bob@bob.com") eq_refl eq_refl eq_refl Hin eq_refl eq_refl).
Defined.

(** C1 as stated fails: a value with a newline in it is left as it is,
    since [.] does not match the newline; the name, the marker and the
    separator are the usual ones. *)
Lemma filter_datum_newline_value_kept :
  In (py "name") [py "name"] /\
  occurs (py ";") (py "a" ++ [newline] ++ py "b") = false /\
  filter_datum [py "name"] (py "***")
    (py "name" ++ py "=" ++ (py "a" ++ [newline] ++ py "b") ++ py ";") (py ";")
    = Ret (py "name" ++ py "=" ++ (py "a" ++ [newline] ++ py "b") ++ py ";") /\
  filter_datum [py "name"] (py "***")
    (py "name" ++ py "=" ++ (py "a" ++ [newline] ++ py "b") ++ py ";") (py ";")
    <> Ret (py "name" ++ py "=" ++ py "***" ++ py ";").
Proof.
  split; [now left|]. split; [reflexivity|]. split; [reflexivity|].
  vm_compute. discriminate.
Qed.

(** Each further condition of the amended C1 is needed. *)
Example special_name_not_redacted :
  filter_datum [py "a+"] (py "***") (py "a+=v;") (py ";") = Ret (py "a+=v;").
Proof. reflexivity. Qed.

Example group_reference_marker_keeps_value :
  filter_datum [py "a"] ([backslash] ++ py "1") (py "a=v;") (py ";")
  = Ret (py "a=v;").
Proof. reflexivity. Qed.

Example letter_separator_is_a_class :
  filter_datum [py "a"] (py "***") (py "a=1d") (py "d") = Ret (py "a=***dd").
Proof. reflexivity. Qed.

Example marker_with_key_redacted_again :
  filter_datum [py "a"; py "b"] (py "b=") (py "a=v;") (py ";")
  = Ret (py "a=b=b=;").
Proof. reflexivity. Qed.

Example marker_with_separator_redacted_again :
  filter_datum [py "a"; py "a"] (py "x;y") (py "a=v;") (py ";")
  = Ret (py "a=x;y;y;").
Proof. reflexivity. Qed.

Example marker_with_newline_blocks_later_pass :
  filter_datum [py "g"; py "a"] [newline] (py "a=g=1;") (py ";")
  = Ret (py "a=g=" ++ [newline] ++ py ";").
Proof. reflexivity. Qed.

Example name_with_equals_lost :
  filter_datum [py "a"; py "a=b"] (py "***") (py "a=b=v;") (py ";")
  = Ret (py "a=***;").
Proof. reflexivity. Qed.

(** C2, as amended.  For field names without special characters, a marker
    without backslash and a separator of one character that is neither a
    letter, a digit nor a backslash: a message in which none of the field
    names occurs is returned as it is, and the substitution for a single
    field name that does not occur in the message returns the message as it
    is. *)
Theorem filter_datum_absent_fields (fields : list str) (marker : str) (c : ascii)
  (m : str) :
  forallb literal_name fields = true ->
  escapable c = true ->
  free_of backslash marker = true ->
  (forallb (fun g => negb (occurs g m)) fields = true ->
   filter_datum fields marker m [c] = Ret m)
  /\ (forall g : str,
        In g fields -> occurs g m = false ->
        re_sub (g ++ py "=(.*?)" ++ [backslash] ++ [c])
               (g ++ py "=" ++ marker ++ [c]) m = Ret m).
Proof.
  intros Hf Hc Hm. split.
  - intros Habs. rewrite (filter_datum_run marker c fields m Hf Hc Hm).
    f_equal. now apply run_absent.
  - intros g Hin Hg. rewrite forallb_forall in Hf.
    rewrite (re_sub_field marker c g m (Hf g Hin) Hc Hm).
    f_equal. now apply pass_absent.
Qed.

Lemma filter_datum_absent_fields_witness :
  (forallb literal_name PII_FIELDS = true /\
   escapable ";" = true /\
   free_of backslash (py "***") = true) /\
  ((forallb (fun g => negb (occurs g (py "ip=10.0.0.1;agent=curl;"))) PII_FIELDS = true ->
    filter_datum PII_FIELDS (py "***") (py "ip=10.0.0.1;agent=curl;") (py ";")
    = Ret (py "ip=10.0.0.1;agent=curl;"))
   /\ (forall g : str,
         In g PII_FIELDS -> occurs g (py "ip=10.0.0.1;agent=curl;") = false ->
         re_sub (g ++ py "=(.*?)" ++ [backslash] ++ [";"%char])
                (g ++ py "=" ++ py "***" ++ [";"%char])
                (py "ip=10.0.0.1;agent=curl;")
         = Ret (py "ip=10.0.0.1;agent=curl;"))).
Proof.
  split.
  - repeat split; reflexivity.
  - exact (filter_datum_absent_fields PII_FIELDS (py "***") ";"
             (py "ip=10.0.0.1;agent=curl;") eq_refl eq_refl eq_refl).
Defined.

(** C2 as stated fails: the field name [.] does not occur in the message
    [x=1;], and yet the message is rewritten, since the name is used as a
    pattern. *)
Lemma filter_datum_dot_field_rewrites :
  forallb (fun g => negb (occurs g (py "x=1;"))) [py "."] = true /\
  filter_datum [py "."] (py "***") (py "x=1;") (py ";") = Ret (py ".=***;") /\
  filter_datum [py "."] (py "***") (py "x=1;") (py ";") <> Ret (py "x=1;").
Proof. split; [reflexivity|]. split; [reflexivity|]. vm_compute. discriminate. Qed.

(** C3, as amended.  For field names without special characters, a marker
    without backslash and a separator of one character that is neither a
    letter, a digit nor a backslash, [filter_datum] returns a string: it
    raises nothing.  (It is a function of its arguments: nothing else is read
    or written.) *)
Theorem filter_datum_returns (fields : list str) (marker : str) (c : ascii)
  (m : str) :
  forallb literal_name fields = true ->
  escapable c = true ->
  free_of backslash marker = true ->
  exists s : str, filter_datum fields marker m [c] = Ret s.
Proof.
  intros Hf Hc Hm. exists (run marker c fields m).
  now apply filter_datum_run.
Qed.

Lemma filter_datum_returns_witness :
  (forallb literal_name PII_FIELDS = true /\
   escapable ";" = true /\
   free_of backslash (py "***") = true) /\
  exists s : str,
    filter_datum PII_FIELDS (py "***") (py "name=Bob;email=bob@bob.com;") (py ";")
    = Ret s.
Proof.
  split.
  - repeat split; reflexivity.
  - exact (filter_datum_returns PII_FIELDS (py "***") ";"
             (py "name=Bob;email=bob@bob.com;") eq_refl eq_refl eq_refl).
Defined.

(** C3 as stated fails: with strings for all the arguments, re.error is
    raised for a field name that is not a pattern, for a separator whose
    escape is not one, and for a marker with such an escape. *)
Lemma filter_datum_raises :
  filter_datum [py "("] (py "***") (py "x") (py ";") = Raise re_error /\
  filter_datum [py "a"] (py "***") (py "x") (py "q") = Raise re_error /\
  filter_datum [py "a"] ([backslash] ++ py "q") (py "x") (py ";") = Raise re_error /\
  filter_datum [py "a"] (py "***") (py "x") (py "") = Raise re_error.
Proof. repeat split; reflexivity. Qed.

(** C4, as amended.  For field names without special characters, without
    [=] and without the separator, a marker without backslash, [=], newline
    and separator, and a separator of one character that is neither a letter,
    a digit, a backslash nor [=]: [filter_datum] returns a message, and applied
    to that message with the same arguments it returns it unchanged. *)
Theorem filter_datum_idempotent (fields : list str) (marker : str) (c : ascii)
  (m : str) :
  forallb (plain_name c) fields = true ->
  plain_marker c marker = true ->
  plain_sep c = true ->
  exists m1 : str,
    filter_datum fields marker m [c] = Ret m1 /\
    filter_datum fields marker m1 [c] = Ret m1.
Proof.
  intros Hf Hm Hc. exists (run marker c fields m).
  pose proof (filter_datum_run marker c fields m
                (plain_names_literal c fields Hf) (sep_escapable c Hc)
                (marker_backslash marker c Hm)) as H1.
  split; [exact H1|].
  rewrite (filter_datum_run marker c fields _
             (plain_names_literal c fields Hf) (sep_escapable c Hc)
             (marker_backslash marker c Hm)).
  f_equal. now apply run_idem.
Qed.

Lemma filter_datum_idempotent_witness :
  (forallb (plain_name ";") PII_FIELDS = true /\
   plain_marker ";" (py "***") = true /\
   plain_sep ";" = true) /\
  exists m1 : str,
    filter_datum PII_FIELDS (py "***") (py "name=Bob;email=bob@bob.com;") (py ";")
      = Ret m1 /\
    filter_datum PII_FIELDS (py "***") m1 (py ";") = Ret m1.
Proof.
  split.
  - repeat split; reflexivity.
  - exact (filter_datum_idempotent PII_FIELDS (py "***") ";"
             (py "name=Bob;email=bob@bob.com;") eq_refl eq_refl eq_refl).
Defined.

(** C4 as stated fails: with a marker that contains the separator, the
    second application redacts the marker of the first; the value [1] of the
    message is not the marker. *)
Lemma filter_datum_not_idempotent :
  py "1" <> py "*;*" /\
  filter_datum [py "a"] (py "*;*") (py "a=1;") (py ";") = Ret (py "a=*;*;") /\
  filter_datum [py "a"] (py "*;*") (py "a=*;*;") (py ";") = Ret (py "a=*;*;*;") /\
  py "a=*;*;*;" <> py "a=*;*;".
Proof. repeat split; try reflexivity; vm_compute; discriminate. Qed.

Example special_name_not_idempotent :
  filter_datum [py "a*"] (py "***") (py "=1;") (py ";") = Ret (py "a*=***;") /\
  filter_datum [py "a*"] (py "***") (py "a*=***;") (py ";") = Ret (py "a*a*=***;").
Proof. split; reflexivity. Qed.

Example name_with_separator_not_idempotent :
  filter_datum [py "a;"; py "a"] (py "a") (py "a=;=;") (py ";")
    = Ret (py "a=a;=;") /\
  filter_datum [py "a;"; py "a"] (py "a") (py "a=a;=;") (py ";")
    = Ret (py "a=a;=a;").
Proof. split; reflexivity. Qed.

Example equals_separator_not_idempotent :
  filter_datum [py "a"; py ""] (py "a") (py "===") (py "=") = Ret (py "=a==") /\
  filter_datum [py "a"; py ""] (py "a") (py "=a==") (py "=") = Ret (py "=a=a=").
Proof. split; reflexivity. Qed.

(** C5, as amended.  For two field names without special characters,
    without [=] and without the separator, a marker without backslash, [=],
    newline and separator, and a separator of one character that is neither a
    letter, a digit, a backslash nor [=]: on every message [filter_datum]
    returns the same string for the order [a, b] and for the order [b, a]. *)
Theorem filter_datum_order_independent (a b marker : str) (c : ascii) (m : str) :
  plain_name c a = true ->
  plain_name c b = true ->
  plain_marker c marker = true ->
  plain_sep c = true ->
  exists r : str,
    filter_datum [a; b] marker m [c] = Ret r /\
    filter_datum [b; a] marker m [c] = Ret r.
Proof.
  intros Ha Hb Hm Hc. exists (run marker c [a; b] m).
  assert (forallb (plain_name c) [a; b] = true) as Hab
    by (cbn [forallb]; now rewrite Ha, Hb).
  assert (forallb (plain_name c) [b; a] = true) as Hba
    by (cbn [forallb]; now rewrite Ha, Hb).
  split.
  - exact (filter_datum_run marker c [a; b] m
             (plain_names_literal c _ Hab) (sep_escapable c Hc)
             (marker_backslash marker c Hm)).
  - rewrite (filter_datum_run marker c [b; a] m
               (plain_names_literal c _ Hba) (sep_escapable c Hc)
               (marker_backslash marker c Hm)).
    f_equal. symmetry. now apply run_swap.
Qed.

Lemma filter_datum_order_independent_witness :
  (plain_name ";" (py "name") = true /\
   plain_name ";" (py "email") = true /\
   plain_marker ";" (py "***") = true /\
   plain_sep ";" = true) /\
  exists r : str,
    filter_datum [py "name"; py "email"] (py "***")
      (py "name=Bob;email=bob@bob.com;") (py ";") = Ret r /\
    filter_datum [py "email"; py "name"] (py "***")
      (py "name=Bob;email=bob@bob.com;") (py ";") = Ret r.
Proof.
  split.
  - repeat split; reflexivity.
  - exact (filter_datum_order_independent (py "name") (py "email") (py "***") ";"
             (py "name=Bob;email=bob@bob.com;") eq_refl eq_refl eq_refl eq_refl).
Defined.

(** C5 as stated fails: the two field names are distinct, both occur in the
    message, the marker and the separator are the usual ones, and the two
    orders give two strings. *)
Lemma filter_datum_order_matters :
  py "x=1|y" <> py "x" /\
  occurs (py "x=1|y") (py "x=1|y;") = true /\
  occurs (py "x") (py "x=1|y;") = true /\
  filter_datum [py "x=1|y"; py "x"] (py "***") (py "x=1|y;") (py ";")
    = Ret (py "x=***;|y;") /\
  filter_datum [py "x"; py "x=1|y"] (py "***") (py "x=1|y;") (py ";")
    = Ret (py "x=***;") /\
  py "x=***;|y;" <> py "x=***;".
Proof. repeat split; try reflexivity; vm_compute; discriminate. Qed.

Example marker_with_key_order_matters :
  filter_datum [py "a"; py "b"] (py "b=") (py "a=1;b=2;") (py ";")
    = Ret (py "a=b=b=;b=b=;") /\
  filter_datum [py "b"; py "a"] (py "b=") (py "a=1;b=2;") (py ";")
    = Ret (py "a=b=;b=b=;").
Proof. split; reflexivity. Qed.

Example name_with_separator_order_matters :
  filter_datum [py "a"; py "a;"] (py "*") (py "a=a;=;") (py ";")
    = Ret (py "a=*;=;") /\
  filter_datum [py "a;"; py "a"] (py "*") (py "a=a;=;") (py ";")
    = Ret (py "a=*;=*;").
Proof. split; reflexivity. Qed.

Example equals_separator_order_matters :
  filter_datum [py ""; py "a"] (py "*") (py "=a==") (py "=") = Ret (py "=*==") /\
  filter_datum [py "a"; py ""] (py "*") (py "=a==") (py "=") = Ret (py "=*=*=").
Proof. split; reflexivity. Qed.

(** C10.  A field name is matched wherever it stands, also at the end of
    another key: with the field [mail] the message [email=x;] becomes
    [e] followed by [mail=***;], and is not left unchanged. *)
Theorem filter_datum_matches_inside_key :
  filter_datum [py "mail"] (py "***") (py "email=x;") (py ";")
    = Ret (py "e" ++ py "mail=***;") /\
  py "e" ++ py "mail=***;" <> py "email=x;" /\
  py "email" = py "e" ++ py "mail".
Proof. repeat split; try reflexivity. vm_compute. discriminate. Qed.

(** ** The formatter *)

Lemma percent_go_FORMAT (record : LogRecord) :
  percent_go
    (py "[HOLBERTON] %(name)s %(levelname)s %(asctime)-15s: %(message)s")
    PText (record_get record)
  = Ret (py "[HOLBERTON] " ++ rec_name record ++ py " "
         ++ rec_levelname record ++ py " "
         ++ pad true 15 (rec_asctime record) ++ py ": "
         ++ rec_message record ++ []).
Proof. reflexivity. Qed.

(** What logging.Formatter.format gives for the format string of the
    module. *)
Lemma Formatter_format_FORMAT (record : LogRecord) :
  Formatter_format
    (py "[HOLBERTON] %(name)s %(levelname)s %(asctime)-15s: %(message)s") record
  = Ret (append_block
           (append_block
              (py "[HOLBERTON] " ++ rec_name record ++ py " "
               ++ rec_levelname record ++ py " "
               ++ pad true 15 (rec_asctime record) ++ py ": "
               ++ rec_message record)
              (rec_exc_text record))
           (rec_stack_info record)).
Proof.
  unfold Formatter_format. rewrite percent_go_FORMAT. cbn [bind].
  now rewrite app_nil_r.
Qed.

(** C6.  For every log record, [RedactingFormatter.format] is
    [filter_datum] applied to the line of the standard formatter for the
    format string "[HOLBERTON] %(name)s %(levelname)s %(asctime)-15s:
    %(message)s", with the fields the formatter holds, the marker "***" and
    the separator ";". *)
Theorem RedactingFormatter_format_spec (self : RedactingFormatter)
  (record : LogRecord) :
  exists line : str,
    Formatter_format
      (py "[HOLBERTON] %(name)s %(levelname)s %(asctime)-15s: %(message)s") record
      = Ret line /\
    RedactingFormatter_format self record
      = filter_datum (fields self) (py "***") line (py ";").
Proof.
  eexists. split; [apply Formatter_format_FORMAT|].
  unfold RedactingFormatter_format, FORMAT.
  now rewrite Formatter_format_FORMAT.
Qed.

(** Scenario 2 of the specification. *)
Example RedactingFormatter_format_scenario :
  RedactingFormatter_format (RedactingFormatter_init [py "password"; py "ssn"])
    {| rec_name := py "user_data"; rec_levelno := 20; rec_levelname := py "INFO";
       rec_asctime := py "2024-01-01 00:00:00,000";
       rec_message := py "password=hunter2;ssn=123-45-6789;ip=10.0.0.1;";
       rec_exc_text := []; rec_stack_info := [] |}
  = Ret (py "[HOLBERTON] user_data INFO 2024-01-01 00:00:00,000: "
         ++ py "password=***;ssn=***;ip=10.0.0.1;").
Proof. reflexivity. Qed.

(** ** The logger *)

(** C7.  [get_logger] returns the logger named "user_data"; after the call
    that logger has the level INFO, does not propagate, and its last handler
    is a stream handler whose formatter is a RedactingFormatter for the
    fields name, email, phone, ssn and password.  A record below INFO is
    dropped, and a record from INFO on goes to the handlers of the logger
    only, whatever its ancestors are. *)
Theorem get_logger_configuration (store : gmap str Logger) :
  fst (get_logger store) = py "user_data" /\
  exists l : Logger,
    snd (get_logger store) !! py "user_data" = Some l /\
    level l = INFO /\
    propagate l = false /\
    (exists earlier : list Handler,
       handlers l = earlier ++
         [{| h_stream := Stderr; h_level := NOTSET;
             h_formatter :=
               Some {| fields := [py "name"; py "email"; py "phone"; py "ssn";
                                  py "password"] |} |}]) /\
    (forall (ancestors : list Logger) (record : LogRecord),
       rec_levelno record < INFO -> Logger_log l ancestors record = []) /\
    (forall (ancestors : list Logger) (record : LogRecord),
       INFO <= rec_levelno record ->
       Logger_log l ancestors record
       = flat_map (fun h => handle h record) (handlers l)).
Proof.
  split; [reflexivity|].
  unfold get_logger. cbn [snd].
  set (name := py "user_data").
  set (h := setFormatter StreamHandler (RedactingFormatter_init PII_FIELDS)).
  assert (exists l0, getLogger name store !! name = Some l0) as [l0 Hl0].
  { unfold getLogger. destruct (store !! name) as [l0|] eqn:E.
    - now exists l0.
    - exists new_logger. apply lookup_insert_eq. }
  exists (addHandler h (set_propagate false (setLevel INFO l0))).
  split.
  { rewrite !lookup_alter_eq, Hl0. reflexivity. }
  split; [reflexivity|]. split; [reflexivity|].
  split; [now exists (handlers l0)|].
  split.
  - intros ancestors record Hlt. unfold Logger_log, isEnabledFor.
    replace (getEffectiveLevel _ ancestors) with INFO
      by (destruct ancestors; reflexivity).
    destruct (INFO <=? rec_levelno record) eqn:E; [|reflexivity].
    apply Nat.leb_le in E. lia.
  - intros ancestors record Hge. unfold Logger_log, isEnabledFor.
    replace (getEffectiveLevel _ ancestors) with INFO
      by (destruct ancestors; reflexivity).
    apply Nat.leb_le in Hge. rewrite Hge.
    destruct ancestors; cbn [callHandlers propagate addHandler set_propagate];
      now rewrite app_nil_r.
Qed.

(** ** The database connector *)

(** C8.  [get_db] passes to the connection call the password of
    PERSONAL_DATA_DB_PASSWORD or the empty string, the user of
    PERSONAL_DATA_DB_USERNAME or "root", the host of PERSONAL_DATA_DB_HOST or
    "localhost", and the database of PERSONAL_DATA_DB_NAME or nothing; its
    result is the result of that call. *)
Theorem get_db_arguments (connection : Type)
  (connect : connect_args -> outcome connection) (environ : gmap str str) :
  get_db connection connect environ
  = connect
      {| arg_host := default (py "localhost") (environ !! py "PERSONAL_DATA_DB_HOST");
         arg_database := environ !! py "PERSONAL_DATA_DB_NAME";
         arg_user := default (py "root") (environ !! py "PERSONAL_DATA_DB_USERNAME");
         arg_password := default (py "") (environ !! py "PERSONAL_DATA_DB_PASSWORD") |}
  /\ get_db connection connect ∅
     = connect {| arg_host := py "localhost"; arg_database := None;
                  arg_user := py "root"; arg_password := py "" |}.
Proof.
  split; [reflexivity|].
  unfold get_db, environ_get. now rewrite !lookup_empty.
Qed.

(** ** The report of the rows *)

Lemma row_message_spec_line (value : Type) (to_str : value -> str) (r : row8 value) :
  row_message value to_str (as_row r) = Ret (spec_line to_str r).
Proof. destruct r. reflexivity. Qed.

Lemma report_rows (value : Type) (to_str : value -> str) (rows : list (row8 value)) :
  report value to_str (map as_row rows)
  = (map (fun r => Printed (spec_line to_str r)) rows, Ret tt).
Proof.
  induction rows as [|r rows IH]; [reflexivity|].
  cbn [map report]. now rewrite row_message_spec_line, IH.
Qed.

(** C9.  When the query yields rows of eight values, [main] prints for each
    row [(v0, ..., v7)], in order, exactly the line "name=<v0>; email=<v1>;
    phone=<v2>; ssn=<v3>; password=<v4>; ip=<v5>; last_login=<v6>;
    user_agent=<v7>;" with the text of the values, and then closes the cursor
    and the connection.  The line is not redacted: for the row of scenario 4
    it shows the name, the address, the number and the password that
    [filter_datum] with the fields of the module would replace. *)
Theorem main_prints_rows_unredacted (connection value : Type)
  (connect : connect_args -> outcome connection)
  (execute : connection -> str -> outcome (list (list value)))
  (to_str : value -> str) (environ : gmap str str)
  (db : connection) (rows : list (row8 value)) :
  get_db connection connect environ = Ret db ->
  execute db (py "SELECT * FROM users;") = Ret (map as_row rows) ->
  main connection value connect execute to_str environ
    = (map (fun r => Printed (spec_line to_str r)) rows
         ++ [CursorClosed; ConnectionClosed], Ret tt)
  /\ (forall v0 v1 v2 v3 v4 v5 v6 v7 : value,
        row_message value to_str [v0; v1; v2; v3; v4; v5; v6; v7]
        = Ret (py "name=" ++ to_str v0 ++ py "; email=" ++ to_str v1
               ++ py "; phone=" ++ to_str v2 ++ py "; ssn=" ++ to_str v3
               ++ py "; password=" ++ to_str v4 ++ py "; ip=" ++ to_str v5
               ++ py "; last_login=" ++ to_str v6 ++ py "; user_agent=" ++ to_str v7
               ++ py ";"))
  /\ (row_message str (fun v => v)
        [py "Ann"; py "ann@x.com"; py "555-1234"; py "000-00-0000"; py "pw1";
         py "1.2.3.4"; py "2024-01-01"; py "curl/8"]
      = Ret (py "name=Ann; email=ann@x.com; phone=555-1234; ssn=000-00-0000; password=pw1; ip=1.2.3.4; last_login=2024-01-01; user_agent=curl/8;")
      /\ filter_datum PII_FIELDS REDACTION
           (py "name=Ann; email=ann@x.com; phone=555-1234; ssn=000-00-0000; password=pw1; ip=1.2.3.4; last_login=2024-01-01; user_agent=curl/8;")
           SEPARATOR
         = Ret (py "name=***; email=***; phone=***; ssn=***; password=***; ip=1.2.3.4; last_login=2024-01-01; user_agent=curl/8;")).
Proof.
  intros Hdb Hq. split; [|split].
  - unfold main. rewrite Hdb, Hq, report_rows. reflexivity.
  - intros. exact (row_message_spec_line value to_str
                     (Row8 v0 v1 v2 v3 v4 v5 v6 v7)).
  - split; reflexivity.
Qed.

Lemma main_prints_rows_unredacted_witness :
  (get_db unit (fun _ => Ret tt) ∅ = Ret tt /\
   (fun (_ : unit) (_ : str) =>
      Ret [[py "Ann"; py "ann@x.com"; py "555-1234"; py "000-00-0000"; py "pw1";
            py "1.2.3.4"; py "2024-01-01"; py "curl/8"]])
     tt (py "SELECT * FROM users;")
   = Ret (map as_row
            [Row8 (py "Ann") (py "ann@x.com") (py "555-1234") (py "000-00-0000")
               (py "pw1") (py "1.2.3.4") (py "2024-01-01") (py "curl/8")])) /\
  (main unit str (fun _ => Ret tt)
     (fun _ _ =>
        Ret [[py "Ann"; py "ann@x.com"; py "555-1234"; py "000-00-0000"; py "pw1";
              py "1.2.3.4"; py "2024-01-01"; py "curl/8"]])
     (fun v => v) ∅
   = ([Printed (py "name=Ann; email=ann@x.com; phone=555-1234; ssn=000-00-0000; password=pw1; ip=1.2.3.4; last_login=2024-01-01; user_agent=curl/8;");
       CursorClosed; ConnectionClosed], Ret tt)
   /\ (forall v0 v1 v2 v3 v4 v5 v6 v7 : str,
         row_message str (fun v => v) [v0; v1; v2; v3; v4; v5; v6; v7]
         = Ret (py "name=" ++ v0 ++ py "; email=" ++ v1
                ++ py "; phone=" ++ v2 ++ py "; ssn=" ++ v3
                ++ py "; password=" ++ v4 ++ py "; ip=" ++ v5
                ++ py "; last_login=" ++ v6 ++ py "; user_agent=" ++ v7
                ++ py ";"))
   /\ (row_message str (fun v => v)
         [py "Ann"; py "ann@x.com"; py "555-1234"; py "000-00-0000"; py "pw1";
          py "1.2.3.4"; py "2024-01-01"; py "curl/8"]
       = Ret (py "name=Ann; email=ann@x.com; phone=555-1234; ssn=000-00-0000; password=pw1; ip=1.2.3.4; last_login=2024-01-01; user_agent=curl/8;")
       /\ filter_datum PII_FIELDS REDACTION
            (py "name=Ann; email=ann@x.com; phone=555-1234; ssn=000-00-0000; password=pw1; ip=1.2.3.4; last_login=2024-01-01; user_agent=curl/8;")
            SEPARATOR
          = Ret (py "name=***; email=***; phone=***; ssn=***; password=***; ip=1.2.3.4; last_login=2024-01-01; user_agent=curl/8;"))).
Proof.
  split.
  - split; reflexivity.
  - exact (main_prints_rows_unredacted unit str (fun _ => Ret tt)
             (fun _ _ =>
                Ret [[py "Ann"; py "ann@x.com"; py "555-1234"; py "000-00-0000";
                      py "pw1"; py "1.2.3.4"; py "2024-01-01"; py "curl/8"]])
             (fun v => v) ∅ tt
             [Row8 (py "Ann") (py "ann@x.com") (py "555-1234") (py "000-00-0000")
                (py "pw1") (py "1.2.3.4") (py "2024-01-01") (py "curl/8")]
             eq_refl eq_refl).
Defined.

(** * More about the redactor *)

Lemma str_eqb_eq (a b : str) : str_eqb a b = true <-> a = b.
Proof.
  revert b. induction a as [|x a IH]; intros [|y b]; cbn [str_eqb];
    try (split; [discriminate | intros [=]]); [easy|].
  rewrite andb_true_iff, chr_eqb_eq, IH. split.
  - now intros [-> ->].
  - intros [= -> ->]. now split.
Qed.

Lemma str_eqb_refl (a : str) : str_eqb a a = true.
Proof. now apply str_eqb_eq. Qed.

(** Where a pass stops in a record. *)
Lemma stop_record (g k v : str) :
  free_of "=" g = true -> free_of "=" k = true ->
  stop g (k ++ "="%char :: v) = str_eqb k g && free_of newline v.
Proof.
  intros Hg Hk. destruct (str_eqb k g) eqn:E.
  - apply str_eqb_eq in E as <-. unfold stop.
    change (k ++ "="%char :: v) with (k ++ ["="%char] ++ v).
    rewrite app_assoc, is_prefix_refl_app.
    replace (length k + 1) with (length (k ++ ["="%char]))
      by (rewrite length_app; reflexivity).
    now rewrite drop_app_length.
  - destruct (stop g (k ++ "="%char :: v)) eqn:Hs; [|reflexivity].
    apply stop_split in Hs as (Y & Hs & _). cbn [app] in Hs.
    destruct (split_unique _ _ _ _ _ Hk Hg Hs) as [-> _].
    now rewrite str_eqb_refl in E.
Qed.

Lemma segs_no_eq (marker : str) (gs : list str) (W : str) :
  free_of "=" W = true -> segs marker gs W = W.
Proof.
  intros HW.
  assert (forall V, free_of "=" V = true ->
                    find (fun g => stop g V) gs = None) as Hnone.
  { intros V HV. induction gs as [|g gs' IH]; [reflexivity|].
    cbn [find]. now rewrite (stop_no_eq g V HV). }
  induction W as [|x W IH]; cbn [segs]; rewrite (Hnone _ HW); [reflexivity|].
  rewrite free_of_cons in HW. apply andb_prop in HW as [_ HW].
  now rewrite (IH HW).
Qed.

Lemma watched_cons (gs : list str) (x : ascii) (k : str) :
  (forall g, In g gs -> str_eqb (x :: k) g = false) ->
  watched gs (x :: k) = watched gs k.
Proof.
  unfold watched. induction gs as [|g gs IH]; intros H; [reflexivity|].
  cbn [existsb ends_with]. rewrite (H g (or_introl eq_refl)). cbn [orb].
  f_equal. apply IH. intros g' Hg'. apply H. now right.
Qed.

(** The passes of all the fields on the text of one record. *)
Lemma segs_record (marker : str) (gs : list str) (k v : str) :
  forallb (free_of "=") gs = true ->
  free_of "=" k = true -> free_of "=" v = true ->
  segs marker gs (k ++ "="%char :: v) =
  if watched gs k && free_of newline v
  then k ++ "="%char :: marker
  else k ++ "="%char :: v.
Proof.
  intros Hgs Hk Hv. induction k as [|x k IH].
  - destruct (find (fun g => stop g ("="%char :: v)) gs) as [g|] eqn:Hf.
    + rewrite (segs_hit _ _ _ _ Hf).
      apply (gs_found gs Hgs) in Hf as (Hin & Hg & Hs).
      pose proof (stop_record g [] v Hg eq_refl) as R. cbn [app] in R.
      rewrite R in Hs. apply andb_prop in Hs as [E Hn]. apply str_eqb_eq in E as <-.
      replace (watched gs []) with true; [now rewrite Hn|].
      symmetry. unfold watched. apply existsb_exists. now exists [].
    + cbn [app]. rewrite (segs_miss _ _ _ _ Hf), (segs_no_eq _ _ _ Hv).
      destruct (free_of newline v) eqn:Hn; [|now rewrite andb_false_r].
      replace (watched gs []) with false; [reflexivity|].
      symmetry. unfold watched.
      destruct (existsb (ends_with []) gs) eqn:E; [|reflexivity].
      apply existsb_exists in E as (g & Hin & Hg).
      pose proof (find_none _ _ Hf g Hin) as Hs. cbn beta in Hs.
      rewrite forallb_forall in Hgs.
      pose proof (stop_record g [] v (Hgs g Hin) eq_refl) as R. cbn [app] in R.
      rewrite R, Hn in Hs. cbn [ends_with] in Hg. rewrite orb_false_r in Hg.
      rewrite Hg in Hs. discriminate.
  - destruct (find (fun g => stop g ((x :: k) ++ "="%char :: v)) gs) as [g|] eqn:Hf.
    + rewrite (segs_hit _ _ _ _ Hf).
      apply (gs_found gs Hgs) in Hf as (Hin & Hg & Hs).
      rewrite (stop_record g (x :: k) v Hg Hk) in Hs.
      apply andb_prop in Hs as [E Hn]. apply str_eqb_eq in E as <-.
      replace (watched gs (x :: k)) with true; [now rewrite Hn|].
      symmetry. unfold watched. apply existsb_exists. exists (x :: k).
      split; [exact Hin|]. cbn [ends_with]. now rewrite str_eqb_refl.
    + cbn [app] in Hf |- *. rewrite (segs_miss _ _ _ _ Hf).
      rewrite free_of_cons in Hk. apply andb_prop in Hk as [Hx Hk'].
      rewrite (IH Hk').
      destruct (free_of newline v) eqn:Hn; [|now rewrite !andb_false_r].
      rewrite !andb_true_r.
      rewrite watched_cons; [now destruct (watched gs k)|].
      intros g Hin. pose proof (find_none _ _ Hf g Hin) as Hs. cbn beta in Hs.
      rewrite forallb_forall in Hgs.
      change (x :: k ++ "="%char :: v) with ((x :: k) ++ "="%char :: v) in Hs.
      rewrite (stop_record g (x :: k) v (Hgs g Hin)), Hn, andb_true_r in Hs;
        [exact Hs|].
      now rewrite free_of_cons, Hx, Hk'.
Qed.

Lemma watched_rev (gs : list str) (k : str) : watched (rev gs) k = watched gs k.
Proof.
  unfold watched. destruct (existsb (ends_with k) gs) eqn:E.
  - apply existsb_exists in E as (g & Hin & Hg). apply existsb_exists.
    exists g. split; [now apply in_rev in Hin|exact Hg].
  - destruct (existsb (ends_with k) (rev gs)) eqn:E'; [|reflexivity].
    apply existsb_exists in E' as (g & Hin & Hg). apply in_rev in Hin.
    rewrite <- E. symmetry. apply existsb_exists. now exists g.
Qed.

Lemma plain_names_rev_eq (c : ascii) (fields : list str) :
  forallb (plain_name c) fields = true ->
  forallb (free_of "=") (rev fields) = true.
Proof.
  intros Hf. pose proof (plain_names_eq c fields Hf) as He.
  rewrite forallb_forall in He |- *. intros g Hg. apply He. now apply in_rev.
Qed.

Lemma run_records (marker : str) (c : ascii) (fields : list str)
  (kvs : list (str * str)) (tail : str) :
  forallb (plain_name c) fields = true ->
  plain_marker c marker = true ->
  plain_sep c = true ->
  forallb (plain_record c) kvs = true ->
  free_of c tail = true ->
  run marker c fields (flat_map (record_text c) kvs ++ tail)
  = flat_map (record_text c) (map (redact_record marker fields) kvs) ++ tail.
Proof.
  intros Hf Hm Hc Hk Ht. induction kvs as [|[k v] kvs IH].
  - cbn [flat_map map app]. now apply run_tail.
  - cbn [forallb] in Hk. apply andb_prop in Hk as [Hkv Hk].
    unfold plain_record in Hkv. cbn [fst snd] in Hkv.
    apply andb_prop in Hkv as [Hkv Hvc]. apply andb_prop in Hkv as [Hkv Hve].
    apply andb_prop in Hkv as [Hke Hkc].
    cbn [flat_map map]. rewrite <- (app_assoc (record_text c (k, v))).
    unfold record_text at 1. cbn [fst snd].
    replace ((k ++ ["="%char] ++ v ++ [c]) ++ flat_map (record_text c) kvs ++ tail)
      with ((k ++ "="%char :: v) ++ c :: (flat_map (record_text c) kvs ++ tail))
      by (rewrite <- !app_assoc; reflexivity).
    rewrite (run_segment marker c (marker_sep marker c Hm) (sep_eq c Hc) fields
               _ _ (plain_names_sep c fields Hf)).
    2:{ rewrite free_of_app, Hkc, free_of_cons, Hvc, chr_eqb_sym, (sep_eq c Hc).
        reflexivity. }
    rewrite (IH Hk), (seg_run_canon marker c Hm fields _ (plain_names_eq c fields Hf)).
    rewrite (segs_record marker (rev fields) k v (plain_names_rev_eq c fields Hf)
               Hke Hve), watched_rev.
    unfold redact_record, record_text. cbn [fst snd].
    destruct (watched fields k && free_of newline v); cbn [fst snd];
      now rewrite <- !app_assoc.
Qed.

(** X1.  On a message made of records [key=value<sep>], followed by a rest
    without separator, and for plain field names, marker and separator: when
    keys and values contain neither [=] nor the separator, [filter_datum]
    replaces by the marker the value of exactly the records whose key ends
    with one of the field names and whose value has no newline; the other
    records and the rest are kept. *)
Theorem filter_datum_records (fields : list str) (marker : str) (c : ascii)
  (kvs : list (str * str)) (tail : str) :
  forallb (plain_name c) fields = true ->
  plain_marker c marker = true ->
  plain_sep c = true ->
  forallb (plain_record c) kvs = true ->
  free_of c tail = true ->
  filter_datum fields marker (flat_map (record_text c) kvs ++ tail) [c]
  = Ret (flat_map (record_text c) (map (redact_record marker fields) kvs) ++ tail).
Proof.
  intros Hf Hm Hc Hk Ht.
  rewrite (filter_datum_run marker c fields _ (plain_names_literal c fields Hf)
             (sep_escapable c Hc) (marker_backslash marker c Hm)).
  f_equal. now apply run_records.
Qed.

Lemma filter_datum_records_witness :
  (forallb (plain_name ";") PII_FIELDS = true /\
   plain_marker ";" (py "***") = true /\
   plain_sep ";" = true /\
   forallb (plain_record ";")
     [(py "name", py "Bob"); (py "work_email", py "b@x.org");
      (py "ip", py "10.0.0.1"); (py "ssn", py "1" ++ [newline] ++ py "2")] = true /\
   free_of ";" (py "password=secret") = true) /\
  filter_datum PII_FIELDS (py "***")
    (flat_map (record_text ";")
       [(py "name", py "Bob"); (py "work_email", py "b@x.org");
        (py "ip", py "10.0.0.1"); (py "ssn", py "1" ++ [newline] ++ py "2")]
     ++ py "password=secret") [";"%char]
  = Ret (flat_map (record_text ";")
           (map (redact_record (py "***") PII_FIELDS)
              [(py "name", py "Bob"); (py "work_email", py "b@x.org");
               (py "ip", py "10.0.0.1"); (py "ssn", py "1" ++ [newline] ++ py "2")])
         ++ py "password=secret").
Proof.
  split.
  - repeat split; reflexivity.
  - exact (filter_datum_records PII_FIELDS (py "***") ";"
             [(py "name", py "Bob"); (py "work_email", py "b@x.org");
              (py "ip", py "10.0.0.1"); (py "ssn", py "1" ++ [newline] ++ py "2")]
             (py "password=secret") eq_refl eq_refl eq_refl eq_refl eq_refl).
Defined.

Lemma run_concat (marker : str) (c : ascii) (fields : list str) (m1 m2 : str) :
  forallb (plain_name c) fields = true ->
  plain_marker c marker = true ->
  plain_sep c = true ->
  run marker c fields (m1 ++ c :: m2)
  = run marker c fields (m1 ++ [c]) ++ run marker c fields m2.
Proof.
  intros Hf Hm Hc.
  pose proof (run_segment marker c (marker_sep marker c Hm) (sep_eq c Hc) fields)
    as Hseg.
  pose proof (plain_names_sep c fields Hf) as Hfc.
  induction m1 as [T HT | W R HW IH] using (segments_ind c).
  - rewrite !(Hseg T _ Hfc HT), (run_tail marker c fields [] eq_refl).
    now rewrite <- app_assoc.
  - rewrite <- !app_assoc. cbn [app].
    rewrite !(Hseg W _ Hfc HW), IH. now rewrite <- app_assoc.
Qed.

(** X2.  For plain field names, marker and separator, [filter_datum] works
    on a message piece by piece: the result for a message that ends with the
    separator, followed by a second message, is the result for the first
    followed by the result for the second. *)
Theorem filter_datum_concat (fields : list str) (marker : str) (c : ascii)
  (m1 m2 : str) :
  forallb (plain_name c) fields = true ->
  plain_marker c marker = true ->
  plain_sep c = true ->
  exists r1 r2 : str,
    filter_datum fields marker (m1 ++ [c]) [c] = Ret r1 /\
    filter_datum fields marker m2 [c] = Ret r2 /\
    filter_datum fields marker (m1 ++ [c] ++ m2) [c] = Ret (r1 ++ r2).
Proof.
  intros Hf Hm Hc.
  pose proof (fun m => filter_datum_run marker c fields m
                (plain_names_literal c fields Hf) (sep_escapable c Hc)
                (marker_backslash marker c Hm)) as Hrun.
  exists (run marker c fields (m1 ++ [c])), (run marker c fields m2).
  split; [apply Hrun|]. split; [apply Hrun|].
  rewrite Hrun. f_equal. now apply run_concat.
Qed.

Lemma filter_datum_concat_witness :
  (forallb (plain_name ";") PII_FIELDS = true /\
   plain_marker ";" (py "***") = true /\
   plain_sep ";" = true) /\
  exists r1 r2 : str,
    filter_datum PII_FIELDS (py "***") (py "name=Bob" ++ [";"%char]) [";"%char]
      = Ret r1 /\
    filter_datum PII_FIELDS (py "***") (py "ssn=1;ip=2;") [";"%char] = Ret r2 /\
    filter_datum PII_FIELDS (py "***")
      (py "name=Bob" ++ [";"%char] ++ py "ssn=1;ip=2;") [";"%char]
      = Ret (r1 ++ r2).
Proof.
  split.
  - repeat split; reflexivity.
  - exact (filter_datum_concat PII_FIELDS (py "***") ";" (py "name=Bob")
             (py "ssn=1;ip=2;") eq_refl eq_refl eq_refl).
Defined.

Lemma occurs_key_no_eq (g m : str) :
  free_of "=" m = true -> occurs (g ++ ["="%char]) m = false.
Proof.
  assert (forall s, free_of "=" s = true ->
                    is_prefix (g ++ ["="%char]) s = false) as Hp.
  { intros s Hs. destruct (is_prefix (g ++ ["="%char]) s) eqn:E; [|reflexivity].
    apply is_prefix_spec in E as [r ->]. rewrite <- app_assoc in Hs.
    cbn [app] in Hs. now rewrite free_of_mid in Hs. }
  induction m as [|x m IH]; intros Hm; cbn [occurs]; rewrite (Hp _ Hm).
  - reflexivity.
  - rewrite free_of_cons in Hm. apply andb_prop in Hm as [_ Hm].
    now rewrite (IH Hm).
Qed.

(** X3.  For field names without special characters, a marker without
    backslash and a separator of one character that is neither a letter, a
    digit nor a backslash: a message without [=], and a message without
    separator, are returned as they are, whatever fields they name.  So a
    last value that no separator closes is not redacted. *)
Theorem filter_datum_needs_key_and_separator (fields : list str) (marker : str)
  (c : ascii) (m : str) :
  forallb literal_name fields = true ->
  escapable c = true ->
  free_of backslash marker = true ->
  free_of "=" m = true \/ free_of c m = true ->
  filter_datum fields marker m [c] = Ret m.
Proof.
  intros Hf Hc Hm Hfree.
  rewrite (filter_datum_run marker c fields m Hf Hc Hm). f_equal.
  clear Hf. induction fields as [|g fields IH]; [reflexivity|].
  cbn [run fold_left].
  replace (pass marker c g m) with m; [exact IH|].
  symmetry. destruct Hfree as [He | Hs].
  - apply redact_go_absent. now apply occurs_key_no_eq.
  - now apply pass_tail.
Qed.

Lemma filter_datum_needs_key_and_separator_witness :
  (forallb literal_name PII_FIELDS = true /\
   escapable ";" = true /\
   free_of backslash (py "***") = true /\
   (free_of "=" (py "password=hunter2") = true \/
    free_of ";" (py "password=hunter2") = true)) /\
  filter_datum PII_FIELDS (py "***") (py "password=hunter2") [";"%char]
  = Ret (py "password=hunter2").
Proof.
  split.
  - repeat split; try reflexivity. right. reflexivity.
  - exact (filter_datum_needs_key_and_separator PII_FIELDS (py "***") ";"
             (py "password=hunter2") eq_refl eq_refl eq_refl
             (or_intror eq_refl)).
Defined.

Lemma find_stop_same_set (gs1 gs2 : list str) (V : str) :
  forallb (free_of "=") gs1 = true -> forallb (free_of "=") gs2 = true ->
  (forall g, In g gs1 <-> In g gs2) ->
  find (fun g => stop g V) gs1 = find (fun g => stop g V) gs2.
Proof.
  intros H1 H2 Hsame.
  destruct (find (fun g => stop g V) gs1) as [g1|] eqn:F1;
    destruct (find (fun g => stop g V) gs2) as [g2|] eqn:F2.
  - apply (gs_found gs1 H1) in F1 as (_ & E1 & S1).
    apply (gs_found gs2 H2) in F2 as (_ & E2 & S2).
    now rewrite (key_unique g1 g2 V E1 E2 S1 S2).
  - apply (gs_found gs1 H1) in F1 as (I1 & _ & S1).
    apply Hsame in I1. now rewrite (find_none _ _ F2 g1 I1) in S1.
  - apply (gs_found gs2 H2) in F2 as (I2 & _ & S2).
    apply Hsame in I2. now rewrite (find_none _ _ F1 g2 I2) in S2.
  - reflexivity.
Qed.

Lemma run_same_set (marker : str) (c : ascii) (fields1 fields2 : list str)
  (m : str) :
  forallb (plain_name c) fields1 = true ->
  forallb (plain_name c) fields2 = true ->
  plain_marker c marker = true ->
  plain_sep c = true ->
  (forall g, In g fields1 <-> In g fields2) ->
  run marker c fields1 m = run marker c fields2 m.
Proof.
  intros H1 H2 Hm Hc Hsame.
  pose proof (run_segment marker c (marker_sep marker c Hm) (sep_eq c Hc)) as Hseg.
  induction m as [T HT | W R HW IH] using (segments_ind c).
  - now rewrite !(run_tail marker c _ T HT).
  - rewrite (Hseg fields1 W R (plain_names_sep c _ H1) HW).
    rewrite (Hseg fields2 W R (plain_names_sep c _ H2) HW).
    rewrite IH. f_equal.
    rewrite !(seg_run_canon marker c Hm) by (now apply (plain_names_eq c)).
    apply segs_ext. intros V.
    apply find_stop_same_set; try (now apply (plain_names_rev_eq c)).
    intros g. rewrite <- !in_rev. apply Hsame.
Qed.

(** X5.  For plain field names, marker and separator, the result of
    [filter_datum] depends on the field names as a set only: two collections
    with the same names, in any order and with any repetitions, give the same
    string on every message. *)
Theorem filter_datum_fields_as_set (fields1 fields2 : list str) (marker : str)
  (c : ascii) (m : str) :
  forallb (plain_name c) fields1 = true ->
  forallb (plain_name c) fields2 = true ->
  plain_marker c marker = true ->
  plain_sep c = true ->
  (forall g : str, In g fields1 <-> In g fields2) ->
  exists r : str,
    filter_datum fields1 marker m [c] = Ret r /\
    filter_datum fields2 marker m [c] = Ret r.
Proof.
  intros H1 H2 Hm Hc Hsame. exists (run marker c fields1 m). split.
  - exact (filter_datum_run marker c fields1 m (plain_names_literal c _ H1)
             (sep_escapable c Hc) (marker_backslash marker c Hm)).
  - rewrite (filter_datum_run marker c fields2 m (plain_names_literal c _ H2)
               (sep_escapable c Hc) (marker_backslash marker c Hm)).
    f_equal. symmetry. now apply run_same_set.
Qed.

Lemma filter_datum_fields_as_set_witness :
  (forallb (plain_name ";") [py "ssn"; py "name"; py "ssn"] = true /\
   forallb (plain_name ";") [py "name"; py "ssn"] = true /\
   plain_marker ";" (py "***") = true /\
   plain_sep ";" = true /\
   (forall g : str,
      In g [py "ssn"; py "name"; py "ssn"] <-> In g [py "name"; py "ssn"])) /\
  exists r : str,
    filter_datum [py "ssn"; py "name"; py "ssn"] (py "***")
      (py "name=Bob;ssn=1;") [";"%char] = Ret r /\
    filter_datum [py "name"; py "ssn"] (py "***")
      (py "name=Bob;ssn=1;") [";"%char] = Ret r.
Proof.
  assert (forall g : str,
            In g [py "ssn"; py "name"; py "ssn"] <-> In g [py "name"; py "ssn"])
    as Hsame by (intros g; cbn [In]; tauto).
  split.
  - repeat split; try reflexivity; apply Hsame.
  - exact (filter_datum_fields_as_set [py "ssn"; py "name"; py "ssn"]
             [py "name"; py "ssn"] (py "***") ";" (py "name=Bob;ssn=1;")
             eq_refl eq_refl eq_refl eq_refl Hsame).
Defined.

Lemma count_sep_app (c : ascii) (a b : str) :
  count_sep c (a ++ b) = count_sep c a + count_sep c b.
Proof.
  induction a as [|x a IH]; [reflexivity|]. cbn [app count_sep].
  rewrite IH. lia.
Qed.

Lemma count_sep_free (c : ascii) (a : str) :
  free_of c a = true -> count_sep c a = 0.
Proof.
  induction a as [|x a IH]; [reflexivity|]. rewrite free_of_cons.
  intros H. apply andb_prop in H as [Hx Ha]. apply negb_true_iff in Hx.
  cbn [count_sep]. now rewrite Hx, (IH Ha).
Qed.

Lemma run_count_sep (marker : str) (c : ascii) (fields : list str) (m : str) :
  forallb (plain_name c) fields = true ->
  plain_marker c marker = true ->
  plain_sep c = true ->
  count_sep c (run marker c fields m) = count_sep c m.
Proof.
  intros Hf Hm Hc.
  pose proof (plain_names_sep c fields Hf) as Hfc.
  induction m as [T HT | W R HW IH] using (segments_ind c).
  - now rewrite (run_tail marker c fields T HT).
  - rewrite (run_segment marker c (marker_sep marker c Hm) (sep_eq c Hc) fields
               W R Hfc HW).
    rewrite !count_sep_app. cbn [count_sep]. rewrite IH.
    rewrite (count_sep_free c W HW).
    now rewrite (count_sep_free c _
                   (seg_run_cfree marker c (marker_sep marker c Hm) (sep_eq c Hc)
                      fields W Hfc HW)).
Qed.

(** X6.  For plain field names, marker and separator, [filter_datum] keeps
    the number of separators of the message: redaction neither joins nor
    splits records. *)
Theorem filter_datum_keeps_separators (fields : list str) (marker : str)
  (c : ascii) (m : str) :
  forallb (plain_name c) fields = true ->
  plain_marker c marker = true ->
  plain_sep c = true ->
  exists r : str,
    filter_datum fields marker m [c] = Ret r /\
    count_sep c r = count_sep c m.
Proof.
  intros Hf Hm Hc. exists (run marker c fields m). split.
  - exact (filter_datum_run marker c fields m (plain_names_literal c _ Hf)
             (sep_escapable c Hc) (marker_backslash marker c Hm)).
  - now apply run_count_sep.
Qed.

Lemma filter_datum_keeps_separators_witness :
  (forallb (plain_name ";") PII_FIELDS = true /\
   plain_marker ";" (py "***") = true /\
   plain_sep ";" = true) /\
  exists r : str,
    filter_datum PII_FIELDS (py "***") (py "name=Bob;ip=1;;email=b@x;tail")
      [";"%char] = Ret r /\
    count_sep ";" r = count_sep ";" (py "name=Bob;ip=1;;email=b@x;tail").
Proof.
  split.
  - repeat split; reflexivity.
  - exact (filter_datum_keeps_separators PII_FIELDS (py "***") ";"
             (py "name=Bob;ip=1;;email=b@x;tail") eq_refl eq_refl eq_refl).
Defined.

(** X7.  With an empty separator the pattern of the first field ends with a
    lone backslash: when that field name has no special character,
    [filter_datum] raises re.error, whatever the marker, the other fields and
    the message are. *)
Theorem filter_datum_empty_separator (g : str) (fields : list str)
  (marker m : str) :
  literal_name g = true ->
  filter_datum (g :: fields) marker m [] = Raise re_error.
Proof.
  intros Hg. cbn [filter_datum]. unfold re_sub, re_compile.
  rewrite app_nil_r, (parse_go_lits _ _ _ _ _ Hg). reflexivity.
Qed.

Lemma filter_datum_empty_separator_witness :
  literal_name (py "name") = true /\
  filter_datum (py "name" :: [py "email"]) (py "***") (py "ip=1;") []
  = Raise re_error.
Proof.
  split; [reflexivity|].
  exact (filter_datum_empty_separator (py "name") [py "email"] (py "***")
           (py "ip=1;") eq_refl).
Defined.

(** * More about the formatter *)

Lemma ends_with_newline_after (Q : str) (sp : ascii) (s : str) :
  chr_eqb sp newline = false ->
  ends_with_newline ((Q ++ [sp]) ++ s) = ends_with_newline s.
Proof.
  intros Hsp. unfold ends_with_newline. rewrite last_app.
  destruct (last s); [reflexivity|]. now rewrite last_snoc.
Qed.

Lemma append_block_after (Q : str) (sp : ascii) (s block : str) :
  chr_eqb sp newline = false ->
  append_block ((Q ++ [sp]) ++ s) block = (Q ++ [sp]) ++ append_block s block.
Proof.
  intros Hsp. destruct block as [|b block]; [reflexivity|].
  unfold append_block. rewrite (ends_with_newline_after Q sp s Hsp).
  destruct (ends_with_newline s); now rewrite <- !app_assoc.
Qed.

Lemma line_prefix_split (record : LogRecord) :
  line_prefix record =
  (py "[HOLBERTON] " ++ rec_name record ++ py " " ++ rec_levelname record
   ++ py " " ++ pad true 15 (rec_asctime record) ++ [":"%char]) ++ [" "%char].
Proof. unfold line_prefix. now rewrite <- !app_assoc. Qed.

(** The line of the standard formatter is the prefix and then the message
    with the text of the exception and of the stack. *)
Lemma Formatter_format_parts (record : LogRecord) :
  Formatter_format FORMAT record
  = Ret (line_prefix record ++ record_body record).
Proof.
  unfold FORMAT. rewrite Formatter_format_FORMAT. f_equal.
  unfold record_body.
  replace (py "[HOLBERTON] " ++ rec_name record ++ py " "
           ++ rec_levelname record ++ py " "
           ++ pad true 15 (rec_asctime record) ++ py ": "
           ++ rec_message record)
    with (line_prefix record ++ rec_message record)
    by (unfold line_prefix; now rewrite <- !app_assoc).
  rewrite line_prefix_split.
  now rewrite !append_block_after.
Qed.

Lemma free_of_repeat (x y : ascii) (n : nat) :
  chr_eqb y x = false -> free_of x (repeat y n) = true.
Proof.
  intros H. induction n as [|n IH]; [reflexivity|].
  cbn [repeat]. now rewrite free_of_cons, H, IH.
Qed.

Lemma line_prefix_no_key (record : LogRecord) :
  free_of "=" (rec_name record) = true ->
  free_of "=" (rec_levelname record) = true ->
  free_of "=" (rec_asctime record) = true ->
  free_of "=" (line_prefix record) = true.
Proof.
  intros Hn Hl Ha. unfold line_prefix, pad.
  rewrite !free_of_app, Hn, Hl, Ha, (free_of_repeat "=" " " _ eq_refl).
  reflexivity.
Qed.

(** No key starts in a text without [=] that ends with a character the
    field name does not have. *)
Lemma no_key_in_prefix (g Q : str) (sp : ascii) (m : str) :
  free_of "=" (Q ++ [sp]) = true -> free_of sp g = true ->
  is_prefix (g ++ ["="%char]) ((Q ++ [sp]) ++ m) = false.
Proof.
  revert Q. induction g as [|y g IH]; intros Q HQ Hg.
  - destruct Q as [|q Q]; cbn [app is_prefix] in *.
    + rewrite free_of_cons in HQ. apply andb_prop in HQ as [HQ _].
      apply negb_true_iff in HQ. now rewrite chr_eqb_sym, HQ.
    + rewrite free_of_cons in HQ. apply andb_prop in HQ as [HQ _].
      apply negb_true_iff in HQ. now rewrite chr_eqb_sym, HQ.
  - rewrite free_of_cons in Hg. apply andb_prop in Hg as [Hy Hg].
    apply negb_true_iff in Hy.
    destruct Q as [|q Q]; cbn [app is_prefix] in *.
    + now rewrite Hy.
    + rewrite free_of_cons in HQ. apply andb_prop in HQ as [_ HQ].
      rewrite (IH Q HQ Hg). apply andb_false_r.
Qed.

Lemma pass_after_prefix (marker : str) (c : ascii) (g Q : str) (sp : ascii)
  (m : str) :
  free_of "=" (Q ++ [sp]) = true -> free_of sp g = true ->
  pass marker c g ((Q ++ [sp]) ++ m) = (Q ++ [sp]) ++ pass marker c g m.
Proof.
  intros HQ Hg. unfold pass. induction Q as [|q Q IH].
  - cbn [app]. rewrite redact_go_miss; [reflexivity|].
    unfold hit. pose proof (no_key_in_prefix g [] sp m HQ Hg) as H.
    cbn [app] in H. now rewrite H.
  - cbn [app]. rewrite redact_go_miss.
    + f_equal. apply IH. cbn [app] in HQ. rewrite free_of_cons in HQ.
      now apply andb_prop in HQ as [_ HQ].
    + unfold hit. pose proof (no_key_in_prefix g (q :: Q) sp m HQ Hg) as H.
      cbn [app] in H. now rewrite H.
Qed.

Lemma run_after_prefix (marker : str) (c : ascii) (fields : list str) (Q : str)
  (sp : ascii) (m : str) :
  free_of "=" (Q ++ [sp]) = true -> forallb (free_of sp) fields = true ->
  run marker c fields ((Q ++ [sp]) ++ m) = (Q ++ [sp]) ++ run marker c fields m.
Proof.
  intros HQ. revert m. induction fields as [|g fields IH]; intros m Hf;
    [reflexivity|].
  cbn [forallb] in Hf. apply andb_prop in Hf as [Hg Hf].
  cbn [run fold_left]. rewrite (pass_after_prefix marker c g Q sp m HQ Hg).
  now apply IH.
Qed.

(** X8.  When the field names of the formatter have no special character
    and no space, and the logger name, the level name and the time of the
    record have no [=]: [RedactingFormatter.format] returns the prefix
    "[HOLBERTON] <name> <level> <time>: " as it is, followed by what
    [filter_datum] makes of the message (with the text of the exception and
    of the stack) alone. *)
Theorem RedactingFormatter_format_keeps_prefix (self : RedactingFormatter)
  (record : LogRecord) :
  forallb literal_name (fields self) = true ->
  forallb (free_of " ") (fields self) = true ->
  free_of "=" (rec_name record) = true ->
  free_of "=" (rec_levelname record) = true ->
  free_of "=" (rec_asctime record) = true ->
  exists red : str,
    filter_datum (fields self) (py "***") (record_body record) (py ";") = Ret red /\
    RedactingFormatter_format self record = Ret (line_prefix record ++ red).
Proof.
  intros Hl Hs Hn Hlv Ha.
  pose proof (fun m => filter_datum_run (py "***") ";" (fields self) m Hl
                eq_refl eq_refl) as Hrun.
  exists (run (py "***") ";" (fields self) (record_body record)).
  split; [apply Hrun|].
  unfold RedactingFormatter_format. rewrite Formatter_format_parts.
  cbn [bind]. change SEPARATOR with [";"%char]. change REDACTION with (py "***").
  rewrite Hrun. f_equal.
  pose proof (line_prefix_no_key record Hn Hlv Ha) as Hp.
  rewrite line_prefix_split in Hp |- *.
  now apply run_after_prefix.
Qed.

Lemma RedactingFormatter_format_keeps_prefix_witness :
  (forallb literal_name (fields (RedactingFormatter_init PII_FIELDS)) = true /\
   forallb (free_of " ") (fields (RedactingFormatter_init PII_FIELDS)) = true /\
   free_of "=" (py "user_data") = true /\
   free_of "=" (py "INFO") = true /\
   free_of "=" (py "2024-01-01 00:00:00,000") = true) /\
  exists red : str,
    filter_datum (fields (RedactingFormatter_init PII_FIELDS)) (py "***")
      (record_body
         {| rec_name := py "user_data"; rec_levelno := 20;
            rec_levelname := py "INFO";
            rec_asctime := py "2024-01-01 00:00:00,000";
            rec_message := py "name=Bob;ip=1;";
            rec_exc_text := py "Traceback: ssn=1;"; rec_stack_info := [] |})
      (py ";") = Ret red /\
    RedactingFormatter_format (RedactingFormatter_init PII_FIELDS)
      {| rec_name := py "user_data"; rec_levelno := 20;
         rec_levelname := py "INFO";
         rec_asctime := py "2024-01-01 00:00:00,000";
         rec_message := py "name=Bob;ip=1;";
         rec_exc_text := py "Traceback: ssn=1;"; rec_stack_info := [] |}
    = Ret (line_prefix
             {| rec_name := py "user_data"; rec_levelno := 20;
                rec_levelname := py "INFO";
                rec_asctime := py "2024-01-01 00:00:00,000";
                rec_message := py "name=Bob;ip=1;";
                rec_exc_text := py "Traceback: ssn=1;"; rec_stack_info := [] |}
           ++ red).
Proof.
  split.
  - repeat split; reflexivity.
  - exact (RedactingFormatter_format_keeps_prefix
             (RedactingFormatter_init PII_FIELDS)
             {| rec_name := py "user_data"; rec_levelno := 20;
                rec_levelname := py "INFO";
                rec_asctime := py "2024-01-01 00:00:00,000";
                rec_message := py "name=Bob;ip=1;";
                rec_exc_text := py "Traceback: ssn=1;"; rec_stack_info := [] |}
             eq_refl eq_refl eq_refl eq_refl eq_refl).
Defined.

(** * More about the logger *)












(** * More about main *)

Lemma row_message_short (value : Type) (to_str : value -> str)
  (row : list value) :
  length row < 8 -> row_message value to_str row = Raise IndexError.
Proof.
  intros H. do 8 (destruct row as [|? row]; [reflexivity|]).
  cbn [length] in H. lia.
Qed.

Lemma row_message_long (value : Type) (to_str : value -> str) (r : row8 value)
  (extra : list value) :
  row_message value to_str (as_row r ++ extra) = Ret (spec_line to_str r).
Proof. destruct r. reflexivity. Qed.



Lemma report_short_row (value : Type) (to_str : value -> str)
  (rows : list (row8 value)) (short : list value) (rest : list (list value)) :
  length short < 8 ->
  report value to_str (map as_row rows ++ short :: rest)
  = (map (fun r => Printed (spec_line to_str r)) rows, Raise IndexError).
Proof.
  intros H. induction rows as [|r rows IH].
  - cbn [map app report]. now rewrite (row_message_short value to_str short H).
  - cbn [map app report]. rewrite <- (app_nil_r (as_row r)).
    now rewrite row_message_long, IH.
Qed.

Lemma report_long_rows (value : Type) (to_str : value -> str)
  (rows : list (row8 value * list value)) :
  report value to_str (map (fun p => as_row (fst p) ++ snd p) rows)
  = (map (fun p => Printed (spec_line to_str (fst p))) rows, Ret tt).
Proof.
  induction rows as [|[r extra] rows IH]; [reflexivity|].
  cbn [map report fst snd]. now rewrite row_message_long, IH.
Qed.

(** X11.  A row with fewer than eight columns stops [main] with an
    IndexError: the rows before it have been printed, no later row is, and
    neither the cursor nor the connection is closed. *)
Theorem main_short_row (connection value : Type)
  (connect : connect_args -> outcome connection)
  (execute : connection -> str -> outcome (list (list value)))
  (to_str : value -> str) (environ : gmap str str)
  (db : connection) (rows : list (row8 value)) (short : list value)
  (rest : list (list value)) :
  get_db connection connect environ = Ret db ->
  execute db (py "SELECT * FROM users;") = Ret (map as_row rows ++ short :: rest) ->
  length short < 8 ->
  main connection value connect execute to_str environ
  = (map (fun r => Printed (spec_line to_str r)) rows, Raise IndexError).
Proof.
  intros Hdb Hq Hlen. unfold main.
  now rewrite Hdb, Hq, (report_short_row value to_str rows short rest Hlen).
Qed.

Lemma main_short_row_witness :
  (get_db unit (fun _ => Ret tt) ∅ = Ret tt /\
   (fun (_ : unit) (_ : str) =>
      Ret [[py "Ann"; py "a@x"; py "1"; py "2"; py "pw"; py "ip"; py "t"; py "ua"];
           [py "Bob"; py "b@x"];
           [py "Cy"; py "c@x"; py "1"; py "2"; py "pw"; py "ip"; py "t"; py "ua"]])
     tt (py "SELECT * FROM users;")
   = Ret (map as_row
            [Row8 (py "Ann") (py "a@x") (py "1") (py "2") (py "pw") (py "ip")
               (py "t") (py "ua")]
          ++ [py "Bob"; py "b@x"]
             :: [[py "Cy"; py "c@x"; py "1"; py "2"; py "pw"; py "ip"; py "t";
                  py "ua"]]) /\
   length [py "Bob"; py "b@x"] < 8) /\
  main unit str (fun _ => Ret tt)
    (fun _ _ =>
       Ret [[py "Ann"; py "a@x"; py "1"; py "2"; py "pw"; py "ip"; py "t"; py "ua"];
            [py "Bob"; py "b@x"];
            [py "Cy"; py "c@x"; py "1"; py "2"; py "pw"; py "ip"; py "t"; py "ua"]])
    (fun v => v) ∅
  = (map (fun r => Printed (spec_line (fun v => v) r))
       [Row8 (py "Ann") (py "a@x") (py "1") (py "2") (py "pw") (py "ip")
          (py "t") (py "ua")],
     Raise IndexError).
Proof.
  split.
  - repeat split; cbn [length]; lia.
  - exact (main_short_row unit str (fun _ => Ret tt)
             (fun _ _ =>
                Ret [[py "Ann"; py "a@x"; py "1"; py "2"; py "pw"; py "ip"; py "t";
                      py "ua"];
                     [py "Bob"; py "b@x"];
                     [py "Cy"; py "c@x"; py "1"; py "2"; py "pw"; py "ip"; py "t";
                      py "ua"]])
             (fun v => v) ∅ tt
             [Row8 (py "Ann") (py "a@x") (py "1") (py "2") (py "pw") (py "ip")
                (py "t") (py "ua")]
             [py "Bob"; py "b@x"]
             [[py "Cy"; py "c@x"; py "1"; py "2"; py "pw"; py "ip"; py "t";
               py "ua"]]
             eq_refl eq_refl ltac:(cbn [length]; lia)).
Defined.

(** X12.  [main] reads the first eight columns of a row and no other: with
    rows of eight columns or more it prints the same lines as with their
    first eight columns, and closes the cursor and the connection. *)
Theorem main_ignores_later_columns (connection value : Type)
  (connect : connect_args -> outcome connection)
  (execute : connection -> str -> outcome (list (list value)))
  (to_str : value -> str) (environ : gmap str str)
  (db : connection) (rows : list (row8 value * list value)) :
  get_db connection connect environ = Ret db ->
  execute db (py "SELECT * FROM users;")
    = Ret (map (fun p => as_row (fst p) ++ snd p) rows) ->
  main connection value connect execute to_str environ
  = (map (fun p => Printed (spec_line to_str (fst p))) rows
       ++ [CursorClosed; ConnectionClosed], Ret tt).
Proof.
  intros Hdb Hq. unfold main.
  now rewrite Hdb, Hq, report_long_rows.
Qed.

Lemma main_ignores_later_columns_witness :
  (get_db unit (fun _ => Ret tt) ∅ = Ret tt /\
   (fun (_ : unit) (_ : str) =>
      Ret [[py "Ann"; py "a@x"; py "1"; py "2"; py "pw"; py "ip"; py "t"; py "ua";
            py "extra"; py "more"]])
     tt (py "SELECT * FROM users;")
   = Ret (map (fun p => as_row (fst p) ++ snd p)
            [(Row8 (py "Ann") (py "a@x") (py "1") (py "2") (py "pw") (py "ip")
                (py "t") (py "ua"), [py "extra"; py "more"])])) /\
  main unit str (fun _ => Ret tt)
    (fun _ _ =>
       Ret [[py "Ann"; py "a@x"; py "1"; py "2"; py "pw"; py "ip"; py "t"; py "ua";
             py "extra"; py "more"]])
    (fun v => v) ∅
  = (map (fun p => Printed (spec_line (fun v => v) (fst p)))
       [(Row8 (py "Ann") (py "a@x") (py "1") (py "2") (py "pw") (py "ip")
           (py "t") (py "ua"), [py "extra"; py "more"])]
       ++ [CursorClosed; ConnectionClosed], Ret tt).
Proof.
  split.
  - split; reflexivity.
  - exact (main_ignores_later_columns unit str (fun _ => Ret tt)
             (fun _ _ =>
                Ret [[py "Ann"; py "a@x"; py "1"; py "2"; py "pw"; py "ip"; py "t";
                      py "ua"; py "extra"; py "more"]])
             (fun v => v) ∅ tt
             [(Row8 (py "Ann") (py "a@x") (py "1") (py "2") (py "pw") (py "ip")
                 (py "t") (py "ua"), [py "extra"; py "more"])]
             eq_refl eq_refl).
Defined.


(** * The lines of main under filter_datum *)

Lemma redact_record_watched (marker : str) (gs : list str) (k v : str) :
  watched gs k = true -> free_of newline v = true ->
  redact_record marker gs (k, v) = (k, marker).
Proof. intros Hw Hv. unfold redact_record. cbn [fst snd]. now rewrite Hw, Hv. Qed.

Lemma redact_record_unwatched (marker : str) (gs : list str) (k v : str) :
  watched gs k = false -> redact_record marker gs (k, v) = (k, v).
Proof. intros Hw. unfold redact_record. cbn [fst snd]. now rewrite Hw. Qed.

Lemma plain_record_text (k v : str) :
  plain_text k = true -> plain_text v = true -> plain_record ";" (k, v) = true.
Proof.
  unfold plain_text, plain_record. cbn [fst snd].
  intros [-> ->]%andb_prop [-> ->]%andb_prop. reflexivity.
Qed.

(** X14.  The line [main] prints for a row, given to [filter_datum] with
    the fields of [PII_FIELDS], the marker and the separator of the
    formatter, comes back with the first five columns hidden and the last
    three as they were, when the texts of the columns have no [=] and no
    [;] and those of the first five have no newline. *)
Theorem filter_datum_hides_personal_columns (value : Type)
  (to_str : value -> str) (r : row8 value) :
  forallb (fun v => plain_text (to_str v)) (as_row r) = true ->
  forallb (fun v => free_of newline (to_str v)) (firstn 5 (as_row r)) = true ->
  filter_datum PII_FIELDS (py "***") (spec_line to_str r) (py ";")
  = Ret (hidden_line to_str r).
Proof.
  destruct r as [v0 v1 v2 v3 v4 v5 v6 v7].
  unfold as_row. cbn [col0 col1 col2 col3 col4 col5 col6 col7 firstn forallb].
  intros Hp Hn.
  repeat match goal with
         | H : _ && _ = true |- _ => apply andb_prop in H as [? ?]
         end.
  change (py ";") with [";"%char].
  rewrite (filter_datum_run (py "***") ";" PII_FIELDS _ eq_refl eq_refl eq_refl).
  f_equal.
  pose proof (run_records (py "***") ";" PII_FIELDS
                [(py "name", to_str v0); (py " email", to_str v1);
                 (py " phone", to_str v2); (py " ssn", to_str v3);
                 (py " password", to_str v4); (py " ip", to_str v5);
                 (py " last_login", to_str v6); (py " user_agent", to_str v7)]
                [] eq_refl eq_refl eq_refl) as Hrun.
  cbn [forallb] in Hrun.
  rewrite !plain_record_text in Hrun by (assumption || reflexivity).
  specialize (Hrun eq_refl eq_refl).
  cbn [map] in Hrun.
  rewrite !redact_record_watched in Hrun by (assumption || reflexivity).
  rewrite !redact_record_unwatched in Hrun by reflexivity.
  unfold record_text in Hrun. cbn [flat_map fst snd] in Hrun.
  rewrite !app_nil_r, <- !app_assoc in Hrun.
  unfold spec_line, hidden_line.
  cbn [col0 col1 col2 col3 col4 col5 col6 col7].
  exact Hrun.
Qed.

Lemma filter_datum_hides_personal_columns_witness :
  (forallb (fun v => plain_text v)
     (as_row (Row8 (py "Ann") (py "ann@x.com") (py "555-1234") (py "000-00-0000")
                (py "pw1") (py "1.2.3.4") (py "2024-01-01") (py "curl/8"))) = true /\
   forallb (fun v => free_of newline v)
     (firstn 5
        (as_row (Row8 (py "Ann") (py "ann@x.com") (py "555-1234")
                   (py "000-00-0000") (py "pw1") (py "1.2.3.4") (py "2024-01-01")
                   (py "curl/8")))) = true) /\
  filter_datum PII_FIELDS (py "***")
    (spec_line (fun v => v)
       (Row8 (py "Ann") (py "ann@x.com") (py "555-1234") (py "000-00-0000")
          (py "pw1") (py "1.2.3.4") (py "2024-01-01") (py "curl/8")))
    (py ";")
  = Ret (hidden_line (fun v => v)
           (Row8 (py "Ann") (py "ann@x.com") (py "555-1234") (py "000-00-0000")
              (py "pw1") (py "1.2.3.4") (py "2024-01-01") (py "curl/8"))).
Proof.
  split.
  - split; reflexivity.
  - exact (filter_datum_hides_personal_columns str (fun v => v)
             (Row8 (py "Ann") (py "ann@x.com") (py "555-1234") (py "000-00-0000")
                (py "pw1") (py "1.2.3.4") (py "2024-01-01") (py "curl/8"))
             eq_refl eq_refl).
Defined.

(** * The loop over the fields *)

(** X15.  Whatever the arguments are, [filter_datum] with the fields
    [fields1] followed by [fields2] is [filter_datum] with [fields1] and then,
    on the message that returns, [filter_datum] with [fields2]; what the
    first raises is raised, and the fields after it are not looked at. *)
Theorem filter_datum_app (fields1 fields2 : list str)
  (redaction message separator : str) :
  filter_datum (fields1 ++ fields2) redaction message separator
  = let! message' := filter_datum fields1 redaction message separator in
    filter_datum fields2 redaction message' separator.
Proof.
  revert message. induction fields1 as [|field fields1 IH]; intros message.
  - reflexivity.
  - cbn [app filter_datum].
    destruct (re_sub _ _ message) as [message'| |]; cbn [bind];
      [apply IH|reflexivity|reflexivity].
Qed.
